(** * Icon transparency check: the PNG decoder of
      [scripts/check_transparent_icons.py]

    A shallow embedding of [_paeth], [png_has_transparency] and [main].

    Conventions.
    - A Python [bytes] / [bytearray] value is a [list Z] whose elements are
      meant to lie in [0, 256).
    - Lengths, offsets and loop counters are [nat]: the program only ever
      holds non-negative integers there (results of [len], of [struct.unpack]
      on unsigned fields, of [range]).  The two subtractions of the source,
      [x - bpp] and [(y - 1) * row_len], are guarded by [x >= bpp] and
      [y > 0], so truncated subtraction agrees with Python's.
    - An exception is a value of [exn]; a computation that may raise returns
      [result A]. *)

From Stdlib Require Import ZArith Lia.
From stdpp Require Import base decidable option list numbers strings pretty.

Local Open Scope Z_scope.

(** ** Exceptions and the error monad *)

(** The [ValueError]s raised by [png_has_transparency] itself, one
    constructor per [raise] statement, carrying what the f-string
    interpolates besides the path. *)
Inductive value_error : Type :=
  | NotPng                                   (* line 35 *)
  | TruncatedChunkHeader                     (* line 44 *)
  | TruncatedChunkLength                     (* line 52 *)
  | MissingIHDR                              (* line 67 *)
  | UnsupportedBitDepth (bit_depth : Z)      (* line 69 *)
  | UnsupportedColorType (color_type : Z)    (* line 79 *)
  | UnexpectedDecompressedSize               (* line 85 *)
  | UnknownFilterType (filter_type : Z).     (* line 118 *)

Inductive exn : Type :=
  | ValueError (v : value_error)
  | StructError      (* struct.error: buffer of the wrong size for the format *)
  | ZlibError        (* zlib.error raised by zlib.decompress *)
  | IndexError       (* subscript out of range *)
  | ByteValueError   (* bytearray item assignment outside range(0, 256) *)
  | OSError.         (* path.read_bytes() failed *)

Inductive result (A : Type) : Type :=
  | Ok (a : A)
  | Raise (e : exn).
Arguments Ok {A} a.
Arguments Raise {A} e.

Definition bind {A B : Type} (m : result A) (k : A → result B) : result B :=
  match m with
  | Ok a => k a
  | Raise e => Raise e
  end.

Notation "'let*' x ':=' m 'in' k" := (bind m (λ x, k))
  (at level 10, x name, m at level 100, k at level 200).

(** The text of each [ValueError], as the f-strings of the source build it. *)
Definition message (path : string) (v : value_error) : string :=
  match v with
  | NotPng => path +:+ " is not a PNG file"
  | TruncatedChunkHeader => path +:+ " is truncated (invalid chunk header)"
  | TruncatedChunkLength => path +:+ " is truncated (invalid chunk length)"
  | MissingIHDR => path +:+ " is missing IHDR"
  | UnsupportedBitDepth bit_depth =>
      path +:+ " has unsupported bit depth: " +:+ pretty bit_depth
  | UnsupportedColorType color_type =>
      path +:+ " has unsupported color type: " +:+ pretty color_type
  | UnexpectedDecompressedSize => path +:+ " has unexpected decompressed size"
  | UnknownFilterType filter_type =>
      path +:+ " has unknown PNG filter type: " +:+ pretty filter_type
  end.

(** ** Python sequence operations *)

(** [l[i]] for [i >= 0]. *)
Definition getitem (l : list Z) (i : nat) : result Z :=
  match l !! i with
  | Some v => Ok v
  | None => Raise IndexError
  end.

(** [l[i] = v] on a bytearray. *)
Definition setitem (l : list Z) (i : nat) (v : Z) : result (list Z) :=
  if decide (i < length l)%nat then
    if decide (0 ≤ v < 256) then Ok (<[i:=v]> l) else Raise ByteValueError
  else Raise IndexError.

(** [l[a:b]] for [a, b >= 0]: out-of-range bounds are clamped. *)
Definition slice {A : Type} (l : list A) (a b : nat) : list A :=
  take (b - a) (drop a l).

(** [l[a:b] = r] on a bytearray, for [a, b >= 0]. *)
Definition slice_assign {A : Type} (l : list A) (a b : nat) (r : list A)
  : list A :=
  take a l ++ r ++ drop (a `max` b) l.

(** [l[start::step]] for [step > 0]; [skip] counts the elements still to be
    passed over before the next one is taken. *)
Fixpoint every {A : Type} (step skip : nat) (l : list A) : list A :=
  match l with
  | [] => []
  | a :: l' =>
      match skip with
      | O => a :: every step (step - 1) l'
      | S skip' => every step skip' l'
      end
  end.

Definition slice_from_step {A : Type} (l : list A) (start step : nat)
  : list A :=
  every step start l.

(** [for x in range(n): s = body(x, s)], counting up from [x]. *)
Fixpoint for_range {St : Type} (n x : nat) (body : nat → St → result St)
    (s : St) : result St :=
  match n with
  | O => Ok s
  | S n' => let* s' := body x s in for_range n' (S x) body s'
  end.

(** [struct.unpack(">I", b)[0]]. *)
Definition unpack_u32 (b : list Z) : result Z :=
  match b with
  | [b0; b1; b2; b3] => Ok (b0 * 2 ^ 24 + b1 * 2 ^ 16 + b2 * 2 ^ 8 + b3)
  | _ => Raise StructError
  end.

(** [struct.unpack(">IIBBBBB", b)], keeping the first four fields. *)
Definition unpack_IHDR (b : list Z) : result (nat * nat * Z * Z) :=
  match b with
  | [w0; w1; w2; w3; h0; h1; h2; h3; bit_depth; color_type; _; _; _] =>
      Ok (Z.to_nat (w0 * 2 ^ 24 + w1 * 2 ^ 16 + w2 * 2 ^ 8 + w3),
          Z.to_nat (h0 * 2 ^ 24 + h1 * 2 ^ 16 + h2 * 2 ^ 8 + h3),
          bit_depth, color_type)
  | _ => Raise StructError
  end.

(** ** Constants *)

Definition PNG_SIGNATURE : list Z := [137; 80; 78; 71; 13; 10; 26; 10].
Definition IHDR : list Z := [73; 72; 68; 82].
Definition tRNS : list Z := [116; 82; 78; 83].
Definition IDAT : list Z := [73; 68; 65; 84].
Definition IEND : list Z := [73; 69; 78; 68].


(** ** [_paeth] *)

Definition _paeth (a b c : Z) : Z :=
  let p := a + b - c in
  let pa := Z.abs (p - a) in
  let pb := Z.abs (p - b) in
  let pc := Z.abs (p - c) in
  if (pa <=? pb) && (pa <=? pc) then a
  else if pb <=? pc then b
  else c.

(** ** [png_has_transparency], lines 37-64: the chunk loop *)

(** The local variables the chunk loop assigns. *)
Record chunks : Type := {
  width : option nat;
  height : option nat;
  bit_depth : option Z;
  color_type : option Z;
  trns_chunk : option (list Z);
  idat : list Z
}.

Definition no_chunks : chunks :=
  {| width := None; height := None; bit_depth := None; color_type := None;
     trns_chunk := None; idat := [] |}.

Definition set_IHDR (st : chunks) (f : nat * nat * Z * Z) : chunks :=
  let '(w, h, bd, ct) := f in
  {| width := Some w; height := Some h; bit_depth := Some bd;
     color_type := Some ct; trns_chunk := trns_chunk st; idat := idat st |}.

Definition set_tRNS (st : chunks) (chunk_data : list Z) : chunks :=
  {| width := width st; height := height st; bit_depth := bit_depth st;
     color_type := color_type st; trns_chunk := Some chunk_data;
     idat := idat st |}.

Definition extend_IDAT (st : chunks) (chunk_data : list Z) : chunks :=
  {| width := width st; height := height st; bit_depth := bit_depth st;
     color_type := color_type st; trns_chunk := trns_chunk st;
     idat := idat st ++ chunk_data |}.

(** How one iteration of the [while] loop ends. *)
Inductive loop_exit : Type :=
  | Continue (i : nat) (st : chunks)
  | Break (st : chunks).

(** Lines 43-64: the body of the [while] loop at offset [i]. *)
Definition chunk_body (data : list Z) (i : nat) (st : chunks)
  : result loop_exit :=
  if decide (length data < i + 8)%nat then
    Raise (ValueError TruncatedChunkHeader)
  else
    let* length_ := unpack_u32 (slice data i (i + 4)) in
    let chunk_type := slice data (i + 4) (i + 8) in
    let chunk_start := (i + 8)%nat in
    let chunk_end := (chunk_start + Z.to_nat length_)%nat in
    let crc_end := (chunk_end + 4)%nat in
    if decide (length data < crc_end)%nat then
      Raise (ValueError TruncatedChunkLength)
    else
      let chunk_data := slice data chunk_start chunk_end in
      if decide (chunk_type = IHDR) then
        let* f := unpack_IHDR chunk_data in
        Ok (Continue crc_end (set_IHDR st f))
      else if decide (chunk_type = tRNS) then
        Ok (Continue crc_end (set_tRNS st chunk_data))
      else if decide (chunk_type = IDAT) then
        Ok (Continue crc_end (extend_IDAT st chunk_data))
      else if decide (chunk_type = IEND) then
        Ok (Break st)
      else
        Ok (Continue crc_end st).

(** Line 42: [while i < len(data)].  Every iteration that continues moves
    [i] forward by at least 12, so [len(data) - i] iterations always
    suffice (lemma [chunk_loop_fuel] below); with that much fuel the
    exhausted case coincides with the exit of the loop. *)
Fixpoint chunk_loop (fuel : nat) (data : list Z) (i : nat) (st : chunks)
  : result chunks :=
  match fuel with
  | O => Ok st
  | S fuel' =>
      if decide (i < length data)%nat then
        let* r := chunk_body data i st in
        match r with
        | Continue i' st' => chunk_loop fuel' data i' st'
        | Break st' => Ok st'
        end
      else Ok st
  end.

(** Lines 34-64: signature check, then the chunk loop from offset 8. *)
Definition read_chunks (data : list Z) : result chunks :=
  if decide (take (length PNG_SIGNATURE) data = PNG_SIGNATURE) then
    let i := length PNG_SIGNATURE in
    chunk_loop (length data - i) data i no_chunks
  else Raise (ValueError NotPng).

(** ** [png_has_transparency], lines 87-120: scanline reconstruction *)

(** Line 101-103: one iteration of the Sub loop. *)
Definition sub_body (bpp : nat) (x : nat) (row : list Z) : result (list Z) :=
  let* left := (if decide (bpp ≤ x)%nat then getitem row (x - bpp)
                else Ok 0) in
  let* cur := getitem row x in
  setitem row x (Z.land (cur + left) 255).

(** Lines 105-106: one iteration of the Up loop. *)
Definition up_body (prev : list Z) (x : nat) (row : list Z)
  : result (list Z) :=
  let* cur := getitem row x in
  let* up := getitem prev x in
  setitem row x (Z.land (cur + up) 255).

(** Lines 108-110: one iteration of the Average loop. *)
Definition average_body (bpp : nat) (prev : list Z) (x : nat) (row : list Z)
  : result (list Z) :=
  let* left := (if decide (bpp ≤ x)%nat then getitem row (x - bpp)
                else Ok 0) in
  let* cur := getitem row x in
  let* up := getitem prev x in
  setitem row x (Z.land (cur + (left + up) / 2) 255).

(** Lines 112-116: one iteration of the Paeth loop. *)
Definition paeth_body (bpp : nat) (prev : list Z) (x : nat) (row : list Z)
  : result (list Z) :=
  let* left := (if decide (bpp ≤ x)%nat then getitem row (x - bpp)
                else Ok 0) in
  let* up := getitem prev x in
  let* up_left := (if decide (bpp ≤ x)%nat then getitem prev (x - bpp)
                   else Ok 0) in
  let* cur := getitem row x in
  setitem row x (Z.land (cur + _paeth left up up_left) 255).

(** Lines 98-118: the dispatch on the filter type. *)
Definition unfilter (filter_type : Z) (bpp row_len : nat)
    (prev row : list Z) : result (list Z) :=
  if decide (filter_type = 0) then Ok row
  else if decide (filter_type = 1) then
    for_range row_len 0 (sub_body bpp) row
  else if decide (filter_type = 2) then
    for_range row_len 0 (up_body prev) row
  else if decide (filter_type = 3) then
    for_range row_len 0 (average_body bpp prev) row
  else if decide (filter_type = 4) then
    for_range row_len 0 (paeth_body bpp prev) row
  else Raise (ValueError (UnknownFilterType filter_type)).

(** The variables the scanline loop updates. *)
Record raster : Type := { out : list Z; raw_index : nat }.

(** Lines 90-120: the body of [for y in range(height)]. *)
Definition scanline_body (bpp row_len : nat) (raw : list Z) (y : nat)
    (s : raster) : result raster :=
  let* filter_type := getitem raw (raw_index s) in
  let raw_index1 := (raw_index s + 1)%nat in
  let row := slice raw raw_index1 (raw_index1 + row_len) in
  let raw_index2 := (raw_index1 + row_len)%nat in
  let prev :=
    if decide (0 < y)%nat
    then slice (out s) ((y - 1) * row_len) (y * row_len)
    else replicate row_len 0 in
  let* row' := unfilter filter_type bpp row_len prev row in
  Ok {| out := slice_assign (out s) (y * row_len) ((y + 1) * row_len) row';
        raw_index := raw_index2 |}.

(** Lines 87-120. *)
Definition reconstruct (bpp width height : nat) (raw : list Z)
  : result (list Z) :=
  let row_len := (width * bpp)%nat in
  let* s := for_range height 0 (scanline_body bpp row_len raw)
              {| out := replicate (height * row_len) 0; raw_index := 0 |} in
  Ok (out s).

(** [any(a < 255 for a in l)]. *)
Definition any_below_255 (l : list Z) : bool := existsb (λ a, a <? 255) l.

(** ** [png_has_transparency] and [main] *)

(** What the file system answers for a path. *)
Inductive file : Type :=
  | Absent                    (* [exists()] is false *)
  | Unreadable                (* [read_bytes()] raises *)
  | Bytes (data : list Z).

(** The three kinds of line [main] appends to [failures]. *)
Inductive failure : Type :=
  | MissingIconFile (icon_path : string)
  | NoTransparentPixels (icon_path : string)
  | FailedToValidate (icon_path : string) (exc : exn).

Section Decoder.

(** [zlib.decompress], the external collaborator; [None] stands for
    [zlib.error]. *)
Variable inflate : list Z → option (list Z).

(** Lines 81-129, reached with [bpp] set. *)
Definition decode_pixels (st : chunks) (width height : nat)
    (color_type : Z) (bpp : nat) : result bool :=
  match inflate (idat st) with
  | None => Raise ZlibError
  | Some raw =>
      let row_len := (width * bpp)%nat in
      let expected_len := (height * (1 + row_len))%nat in
      if decide (length raw ≠ expected_len) then
        Raise (ValueError UnexpectedDecompressedSize)
      else
        let* out := reconstruct bpp width height raw in
        if decide (color_type = 6) then
          let alpha := slice_from_step out 3 4 in
          Ok (any_below_255 alpha)
        else
          match trns_chunk st with
          | None => Ok false
          | Some t => Ok (any_below_255 t)
          end
  end.

(** Lines 66-129. *)
Definition interpret (st : chunks) : result bool :=
  match width st, height st, bit_depth st, color_type st with
  | Some width, Some height, Some bit_depth, Some color_type =>
      if decide (bit_depth ≠ 8) then
        Raise (ValueError (UnsupportedBitDepth bit_depth))
      else if decide (color_type = 6) then
        decode_pixels st width height color_type 4
      else if decide (color_type = 3) then
        decode_pixels st width height color_type 1
      else if decide (color_type ∈ [0; 2; 4]) then
        Ok false
      else Raise (ValueError (UnsupportedColorType color_type))
  | _, _, _, _ => Raise (ValueError MissingIHDR)
  end.

(** [png_has_transparency] on the bytes [path.read_bytes()] returned. *)
Definition png_has_transparency (data : list Z) : result bool :=
  let* st := read_chunks data in
  interpret st.

(** Lines 136-144: what one iteration appends to [failures]. *)
Definition check_icon (fs : string → file) (icon_path : string)
  : list failure :=
  match fs icon_path with
  | Absent => [MissingIconFile icon_path]
  | Unreadable => [FailedToValidate icon_path OSError]
  | Bytes data =>
      match png_has_transparency data with
      | Ok true => []
      | Ok false => [NoTransparentPixels icon_path]
      | Raise exc => [FailedToValidate icon_path exc]
      end
  end.

(** Lines 133-144: the loop over the icon files. *)
Fixpoint check_icons (fs : string → file) (icons : list string)
  : list failure :=
  match icons with
  | [] => []
  | icon_path :: rest => check_icon fs icon_path ++ check_icons fs rest
  end.


End Decoder.

Arguments png_has_transparency inflate data : simpl never.

(** ** The reconstruction as the specification words it *)

Module Spec.

(** The three-neighbour predictor. *)
Definition paeth (a b c : Z) : Z :=
  let p := a + b - c in
  let pa := Z.abs (p - a) in
  let pb := Z.abs (p - b) in
  let pc := Z.abs (p - c) in
  if decide (pa ≤ pb ∧ pa ≤ pc) then a
  else if decide (pb ≤ pc) then b
  else c.

(** The inverse filter of one byte, given the filtered byte and its three
    neighbours. *)
Definition inverse (filter_type filtered left up up_left : Z) : Z :=
  if decide (filter_type = 1) then (filtered + left) `mod` 256
  else if decide (filter_type = 2) then (filtered + up) `mod` 256
  else if decide (filter_type = 3) then
    (filtered + (left + up) `div` 2) `mod` 256
  else if decide (filter_type = 4) then
    (filtered + paeth left up up_left) `mod` 256
  else filtered.

(** The byte at [i] of [l], or 0 where the specification says the
    reference counts as 0. *)
Definition byte_at (l : list Z) (i : nat) : Z := default 0 (l !! i).

(** The value at position [length done], from the row reconstructed so
    far. *)
Definition value (filter_type : Z) (bpp : nat) (prev done : list Z)
    (filtered : Z) : Z :=
  let x := length done in
  let left := if decide (x < bpp)%nat then 0 else byte_at done (x - bpp) in
  let up := byte_at prev x in
  let up_left :=
    if decide (x < bpp)%nat then 0 else byte_at prev (x - bpp) in
  inverse filter_type filtered left up up_left.

(** A row, strictly left to right: [done] holds the bytes already
    reconstructed, [filtered] the ones still to do. *)
Fixpoint row (filter_type : Z) (bpp : nat) (prev done filtered : list Z)
  : list Z :=
  match filtered with
  | [] => done
  | f :: filtered' =>
      row filter_type bpp prev
        (done ++ [value filter_type bpp prev done f]) filtered'
  end.

(** [n] rows, top to bottom, read off [stream]; each reconstructed row is
    [prev] for the next. *)
Fixpoint rows (bpp row_len : nat) (prev : list Z) (n : nat)
    (stream : list Z) : list Z :=
  match n with
  | O => []
  | S n' =>
      match stream with
      | [] => []
      | filter_type :: rest =>
          let r := row filter_type bpp prev [] (take row_len rest) in
          r ++ rows bpp row_len r n' (drop row_len rest)
      end
  end.

(** The raster: the first row's [prev] is the virtual all-zero row. *)
Definition raster (bpp width height : nat) (raw : list Z) : list Z :=
  let row_len := (width * bpp)%nat in
  rows bpp row_len (replicate row_len 0) height raw.

End Spec.

(** ** Containers, for stating properties of inputs *)

(** [struct.pack(">I", n)]. *)
Definition pack_u32 (n : Z) : list Z :=
  [(n `div` 2 ^ 24) `mod` 256; (n `div` 2 ^ 16) `mod` 256;
   (n `div` 2 ^ 8) `mod` 256; n `mod` 256].

(** A chunk as it lies in the file: length, type, data, crc. *)
Record chunk : Type := {
  chunk_type : list Z;
  chunk_data : list Z;
  chunk_crc : list Z
}.

Definition chunk_bytes (c : chunk) : list Z :=
  pack_u32 (Z.of_nat (length (chunk_data c)))
    ++ chunk_type c ++ chunk_data c ++ chunk_crc c.

Definition chunks_bytes (cs : list chunk) : list Z :=
  concat (map chunk_bytes cs).

(** A complete chunk: 4-byte type, 4-byte crc, a length that fits the
    32-bit field. *)
Definition complete (c : chunk) : Prop :=
  length (chunk_type c) = 4%nat ∧ length (chunk_crc c) = 4%nat ∧
  Z.of_nat (length (chunk_data c)) < 2 ^ 32.

(** What the chunk loop does with a complete chunk that is not [IEND]. *)
Definition absorb (st : chunks) (c : chunk) : result chunks :=
  if decide (chunk_type c = IHDR) then
    let* f := unpack_IHDR (chunk_data c) in Ok (set_IHDR st f)
  else if decide (chunk_type c = tRNS) then Ok (set_tRNS st (chunk_data c))
  else if decide (chunk_type c = IDAT) then Ok (extend_IDAT st (chunk_data c))
  else Ok st.

(** The Adler-32 checksum of a zlib stream, as its four trailer bytes. *)
Definition adler32 (raw : list Z) : list Z :=
  let '(a, b) :=
    fold_left (λ '(a, b) byte,
                 let a' := (a + byte) `mod` 65521 in
                 (a', (b + a') `mod` 65521))
              raw (1, 0) in
  [b `div` 256; b `mod` 256; a `div` 256; a `mod` 256].

(** A stand-in for [zlib.decompress] on concrete inputs: it accepts the zlib
    streams that hold one final stored (uncompressed) deflate block, and
    raises on everything else. *)
Definition inflate_stored (z : list Z) : option (list Z) :=
  match z with
  | 120 :: 1 :: 1 :: l0 :: l1 :: n0 :: n1 :: rest =>
      let len := Z.to_nat (l0 + 256 * l1) in
      if decide (l0 + n0 = 255 ∧ l1 + n1 = 255 ∧
                 length rest = (len + 4)%nat ∧
                 drop len rest = adler32 (take len rest))
      then Some (take len rest)
      else None
  | _ => None
  end.

(** The stored-block zlib stream of [raw] (fewer than 256 bytes). *)
Definition stored (raw : list Z) : list Z :=
  let l := Z.of_nat (length raw) in
  [120; 1; 1; l; 0; 255 - l; 255] ++ raw ++ adler32 raw.

Definition mk_chunk (ty data : list Z) : chunk :=
  {| chunk_type := ty; chunk_data := data; chunk_crc := [0; 0; 0; 0] |}.

(** The 13-byte header payload for small dimensions. *)
Definition ihdr_data (w h bd ct : Z) : list Z :=
  [0; 0; 0; w; 0; 0; 0; h; bd; ct; 0; 0; 0].

(** A small image file: header, optional transparency table, one data
    chunk carrying [raw] stored, end chunk. *)
Definition png_file (w h bd ct : Z) (trns : option (list Z)) (raw : list Z)
  : list Z :=
  PNG_SIGNATURE ++ chunks_bytes
    ([mk_chunk IHDR (ihdr_data w h bd ct)]
       ++ match trns with Some t => [mk_chunk tRNS t] | None => [] end
       ++ [mk_chunk IDAT (stored raw); mk_chunk IEND []]).

(** ** Auxiliary notions for the statements *)

(** What a loop body of [unfilter] has to do at position [length done] of a
    row rewritten in place. *)
Definition step_ok (bpp : nat) (prev : list Z) (filter_type : Z)
    (body : nat → list Z → result (list Z)) : Prop :=
  ∀ done f rest,
    length prev = (length done + S (length rest))%nat →
    body (length done) (done ++ f :: rest)
    = Ok ((done ++ [Spec.value filter_type bpp prev done f]) ++ rest).

(** The filter-type byte of the first of the [n] rows of [stream] that is
    outside 0..4, if there is one. *)
Fixpoint first_bad_filter (row_len n : nat) (stream : list Z) : option Z :=
  match n with
  | O => None
  | S n' =>
      match stream with
      | [] => None
      | filter_type :: rest =>
          if decide (0 ≤ filter_type ≤ 4)
          then first_bad_filter row_len n' (drop row_len rest)
          else Some filter_type
      end
  end.

(** The neighbours of byte [x] of row [y] of a raster [R] whose row 0 has
    [prev] above it; a reference left of the row counts as 0. *)
Definition left_in (bpp row_len : nat) (R : list Z) (y x : nat) : Z :=
  if decide (x < bpp)%nat then 0
  else Spec.byte_at R (y * row_len + x - bpp).

Definition up_in (row_len : nat) (prev R : list Z) (y x : nat) : Z :=
  if decide (y = 0)%nat then Spec.byte_at prev x
  else Spec.byte_at R ((y - 1) * row_len + x).

Definition up_left_in (bpp row_len : nat) (prev R : list Z) (y x : nat) : Z :=
  if decide (x < bpp)%nat then 0
  else if decide (y = 0)%nat then Spec.byte_at prev (x - bpp)
  else Spec.byte_at R ((y - 1) * row_len + x - bpp).

(** The same with the virtual all-zero row above row 0. *)
Definition neighbour_left (bpp row_len : nat) (R : list Z) (y x : nat) : Z :=
  if decide (x < bpp)%nat then 0
  else Spec.byte_at R (y * row_len + x - bpp).

Definition neighbour_up (row_len : nat) (R : list Z) (y x : nat) : Z :=
  if decide (y = 0)%nat then 0
  else Spec.byte_at R ((y - 1) * row_len + x).

Definition neighbour_up_left (bpp row_len : nat) (R : list Z) (y x : nat)
  : Z :=
  if decide (x < bpp ∨ y = 0)%nat then 0
  else Spec.byte_at R ((y - 1) * row_len + x - bpp).

(** The chunk loop over a list of complete chunks, none of them [IEND]. *)
Fixpoint absorb_all (st : chunks) (cs : list chunk) : result chunks :=
  match cs with
  | [] => Ok st
  | c :: cs' => let* st' := absorb st c in absorb_all st' cs'
  end.

(** The end of a file broken off inside a chunk: some bytes are left, but
    fewer than a chunk header, or fewer than the declared length plus the
    header and the checksum. *)
Definition truncated (tail : list Z) : Prop :=
  (0 < length tail)%nat ∧
  ((length tail < 8)%nat ∨
   ∃ n, unpack_u32 (take 4 tail) = Ok n ∧
        (length tail < 8 + Z.to_nat n + 4)%nat).

Definition truncation_error (tail : list Z) : value_error :=
  if decide (length tail < 8)%nat then TruncatedChunkHeader
  else TruncatedChunkLength.

(** The text of a chunk type, and whether a message contains a text. *)
Definition text_of (b : list Z) : string :=
  String.string_of_list_ascii (map (λ z, Ascii.ascii_of_N (Z.to_N z)) b).

Fixpoint contains (needle hay : string) : bool :=
  String.prefix needle hay ||
  match hay with
  | EmptyString => false
  | String _ hay' => contains needle hay'
  end.

(** Lines 71-74: the bytes per pixel of the two colour types whose pixels
    are decoded. *)
Definition bpp_of (color_type : Z) : nat :=
  if decide (color_type = 6) then 4%nat else 1%nat.

(** Lines 122-129: the verdict, from the raster and the transparency
    table. *)
Definition verdict (color_type : Z) (trns : option (list Z)) (out : list Z)
  : bool :=
  if decide (color_type = 6) then any_below_255 (slice_from_step out 3 4)
  else match trns with
       | None => false
       | Some t => any_below_255 t
       end.

(** What the chunk loop holds after reading [png_file]. *)
Definition png_file_chunks (w h : nat) (bd ct : Z) (trns : option (list Z))
    (raw : list Z) : chunks :=
  {| width := Some w; height := Some h; bit_depth := Some bd;
     color_type := Some ct; trns_chunk := trns; idat := stored raw |}.

(** A byte value. *)
Definition is_byte (z : Z) : Prop := 0 ≤ z < 256.

(** The [n] rows of [stream] without their leading filter-type bytes. *)
Fixpoint payload_rows (row_len n : nat) (stream : list Z) : list Z :=
  match n with
  | O => []
  | S n' =>
      match stream with
      | [] => []
      | _ :: rest =>
          take row_len rest ++ payload_rows row_len n' (drop row_len rest)
      end
  end.

(** What may follow the chunks the loop reads to the end: nothing, or an
    [IEND] chunk and then anything. *)
Definition ends_reading (tail : list Z) : Prop :=
  tail = [] ∨
  ∃ c rest, complete c ∧ chunk_type c = IEND ∧ tail = chunk_bytes c ++ rest.

(** The chunks the loop does something with, and what it looks at in a
    chunk. *)
Definition relevant (c : chunk) : Prop :=
  chunk_type c = IHDR ∨ chunk_type c = tRNS ∨ chunk_type c = IDAT.

Definition essence (cs : list chunk) : list (list Z * list Z) :=
  (λ c, (chunk_type c, chunk_data c)) <$> filter relevant cs.

(** The chunk loop over what it looks at in the chunks. *)
Fixpoint absorb_essence (st : chunks) (l : list (list Z * list Z))
  : result chunks :=
  match l with
  | [] => Ok st
  | (ty, data) :: l' =>
      let* st' := absorb st (mk_chunk ty data) in absorb_essence st' l'
  end.

(** The exceptions of the chunk loop, and those of the lines after it. *)
Definition chunk_error (e : exn) : Prop :=
  e = ValueError TruncatedChunkHeader ∨ e = ValueError TruncatedChunkLength ∨
  e = StructError.

Definition interpret_error (e : exn) : Prop :=
  e = ValueError MissingIHDR ∨ (∃ bd, e = ValueError (UnsupportedBitDepth bd)) ∨
  (∃ ct, e = ValueError (UnsupportedColorType ct)) ∨ e = ZlibError ∨
  e = ValueError UnexpectedDecompressedSize ∨
  (∃ ft, e = ValueError (UnknownFilterType ft)).

(** * Properties *)

(** ** Bytes and subscripts *)

Lemma land_255 (v : Z) : Z.land v 255 = v `mod` 256.
Proof. change 255 with (Z.ones 8). by rewrite Z.land_ones. Qed.

Lemma land_255_byte (v : Z) : 0 ≤ Z.land v 255 < 256.
Proof. rewrite land_255. apply Z.mod_pos_bound. lia. Qed.

Lemma paeth_spec (a b c : Z) : _paeth a b c = Spec.paeth a b c.
Proof.
  unfold _paeth, Spec.paeth.
  repeat case_decide; repeat case_match; try done;
    rewrite ?andb_true_iff, ?andb_false_iff in *; lia.
Qed.

Lemma getitem_lt (l : list Z) (i : nat) :
  (i < length l)%nat → getitem l i = Ok (Spec.byte_at l i).
Proof.
  intros Hi. unfold getitem, Spec.byte_at.
  destruct (lookup_lt_is_Some_2 l i Hi) as [v ->]. done.
Qed.

Lemma byte_at_app_l (l k : list Z) (i : nat) :
  (i < length l)%nat → Spec.byte_at (l ++ k) i = Spec.byte_at l i.
Proof. intros Hi. unfold Spec.byte_at. by rewrite lookup_app_l. Qed.

Lemma byte_at_middle (l k : list Z) (v : Z) :
  Spec.byte_at (l ++ v :: k) (length l) = v.
Proof. unfold Spec.byte_at. by rewrite list_lookup_middle. Qed.

Lemma setitem_middle (l k : list Z) (f v : Z) :
  setitem (l ++ f :: k) (length l) (Z.land v 255)
  = Ok ((l ++ [v `mod` 256]) ++ k).
Proof.
  unfold setitem. rewrite decide_True by (rewrite length_app; simpl; lia).
  rewrite decide_True by apply land_255_byte.
  rewrite land_255. f_equal.
  replace (length l) with (length l + 0)%nat at 1 by lia.
  rewrite insert_app_r. simpl. by rewrite <- app_assoc.
Qed.

(** ** One row: the in-place loops compute [Spec.row] *)

(** The neighbour to the left, as the loops read it from the row being
    rewritten in place. *)
Lemma left_neighbour (bpp : nat) (done rest : list Z) (f : Z) :
  (0 < bpp)%nat →
  (if decide (bpp ≤ length done)%nat
   then getitem (done ++ f :: rest) (length done - bpp) else Ok 0)
  = Ok (if decide (length done < bpp)%nat then 0
        else Spec.byte_at done (length done - bpp)).
Proof.
  intros Hbpp. case_decide; case_decide; try lia; [|done].
  rewrite getitem_lt by (rewrite length_app; simpl; lia).
  by rewrite byte_at_app_l by lia.
Qed.

Lemma up_left_neighbour (bpp : nat) (prev : list Z) (x : nat) :
  (x < length prev)%nat →
  (if decide (bpp ≤ x)%nat then getitem prev (x - bpp) else Ok 0)
  = Ok (if decide (x < bpp)%nat then 0 else Spec.byte_at prev (x - bpp)).
Proof.
  intros Hx. case_decide; case_decide; try lia; [|done].
  by rewrite getitem_lt by lia.
Qed.

Section Row.

Variables (bpp : nat) (prev : list Z).
Hypothesis bpp_pos : (0 < bpp)%nat.

Lemma sub_body_ok : step_ok bpp prev 1 (sub_body bpp).
Proof using bpp_pos.
  intros done f rest Hlen. unfold sub_body.
  rewrite left_neighbour by done. simpl.
  rewrite getitem_lt, byte_at_middle by (rewrite length_app; simpl; lia).
  simpl. by rewrite setitem_middle.
Qed.

Lemma up_body_ok : step_ok bpp prev 2 (up_body prev).
Proof.
  intros done f rest Hlen. unfold up_body.
  rewrite getitem_lt, byte_at_middle by (rewrite length_app; simpl; lia).
  simpl. rewrite getitem_lt by lia. simpl. by rewrite setitem_middle.
Qed.

Lemma average_body_ok : step_ok bpp prev 3 (average_body bpp prev).
Proof using bpp_pos.
  intros done f rest Hlen. unfold average_body.
  rewrite left_neighbour by done. simpl.
  rewrite getitem_lt, byte_at_middle by (rewrite length_app; simpl; lia).
  simpl. rewrite getitem_lt by lia. simpl. by rewrite setitem_middle.
Qed.

Lemma paeth_body_ok : step_ok bpp prev 4 (paeth_body bpp prev).
Proof using bpp_pos.
  intros done f rest Hlen. unfold paeth_body.
  rewrite left_neighbour by done. simpl.
  rewrite getitem_lt by lia. simpl.
  rewrite up_left_neighbour by lia. simpl.
  rewrite getitem_lt, byte_at_middle by (rewrite length_app; simpl; lia).
  simpl. rewrite setitem_middle, paeth_spec. done.
Qed.

Lemma for_range_row (filter_type : Z)
    (body : nat → list Z → result (list Z)) :
  step_ok bpp prev filter_type body →
  ∀ rest done,
    length prev = (length done + length rest)%nat →
    for_range (length rest) (length done) body (done ++ rest)
    = Ok (Spec.row filter_type bpp prev done rest).
Proof.
  intros Hbody. induction rest as [|f rest IH]; intros done Hlen; simpl.
  - by rewrite app_nil_r.
  - rewrite Hbody by (simpl in Hlen; lia). simpl.
    specialize (IH (done ++ [Spec.value filter_type bpp prev done f])).
    rewrite length_app in IH. simpl in IH.
    replace (length done + 1)%nat with (S (length done)) in IH by lia.
    apply IH. simpl in Hlen. lia.
Qed.

Lemma row_unfiltered (filter_type : Z) (done filtered : list Z) :
  ¬ (1 ≤ filter_type ≤ 4) →
  Spec.row filter_type bpp prev done filtered = done ++ filtered.
Proof.
  intros Hft. revert done.
  induction filtered as [|f filtered IH]; intros done; simpl.
  - by rewrite app_nil_r.
  - rewrite IH, <- app_assoc. simpl. do 2 f_equal.
    unfold Spec.value, Spec.inverse. repeat case_decide; lia.
Qed.

Lemma unfilter_ok (filter_type : Z) (row : list Z) :
  0 ≤ filter_type ≤ 4 →
  length prev = length row →
  unfilter filter_type bpp (length row) prev row
  = Ok (Spec.row filter_type bpp prev [] row).
Proof using bpp_pos.
  intros Hft Hlen. unfold unfilter.
  repeat case_decide; try lia; subst.
  - by rewrite row_unfiltered by lia.
  - by apply (for_range_row 1 _ sub_body_ok row []).
  - by apply (for_range_row 2 _ up_body_ok row []).
  - by apply (for_range_row 3 _ average_body_ok row []).
  - by apply (for_range_row 4 _ paeth_body_ok row []).
Qed.

End Row.

Lemma unfilter_unknown (filter_type : Z) (bpp row_len : nat)
    (prev row : list Z) :
  ¬ (0 ≤ filter_type ≤ 4) →
  unfilter filter_type bpp row_len prev row
  = Raise (ValueError (UnknownFilterType filter_type)).
Proof. intros Hft. unfold unfilter. repeat case_decide; lia || done. Qed.

Lemma length_spec_row (filter_type : Z) (bpp : nat)
    (prev done filtered : list Z) :
  length (Spec.row filter_type bpp prev done filtered)
  = (length done + length filtered)%nat.
Proof.
  revert done. induction filtered as [|f filtered IH]; intros done; simpl.
  - lia.
  - rewrite IH, length_app. simpl. lia.
Qed.

(** ** The scanline loop *)

Lemma slice_assign_middle {A : Type} (done zeros r : list A) (a b : nat) :
  a = length done → (a ≤ b)%nat → (b - a ≤ length zeros)%nat →
  slice_assign (done ++ zeros) a b r = (done ++ r) ++ drop (b - a) zeros.
Proof.
  intros -> Hab Hb. unfold slice_assign.
  rewrite take_app_length, Nat.max_r by done.
  rewrite drop_app_ge by done. by rewrite <- app_assoc.
Qed.

Lemma scanline_loop (bpp row_len : nat) (raw : list Z) :
  (0 < bpp)%nat →
  ∀ n y pre stream before prev,
    raw = pre ++ stream →
    length stream = (n * (1 + row_len))%nat →
    length before = ((y - 1) * row_len)%nat →
    length prev = row_len →
    (y = 0%nat → prev = replicate row_len 0) →
    for_range n y (scanline_body bpp row_len raw)
      {| out := (if decide (0 < y)%nat then before ++ prev else [])
                  ++ replicate (n * row_len) 0;
         raw_index := length pre |}
    = match first_bad_filter row_len n stream with
      | Some filter_type => Raise (ValueError (UnknownFilterType filter_type))
      | None =>
          Ok {| out := (if decide (0 < y)%nat then before ++ prev else [])
                         ++ Spec.rows bpp row_len prev n stream;
                raw_index := length raw |}
      end.
Proof.
  intros Hbpp. induction n as [|n IH];
    intros y pre stream before prev Hraw Hstream Hbefore Hprev Hzero.
  - simpl. destruct stream; [|done]. subst raw. by rewrite !app_nil_r.
  - destruct stream as [|ft rest]; [done|]. simpl in Hstream.
    cbn [for_range first_bad_filter Spec.rows].
    unfold scanline_body at 1. cbn [raw_index out].
    assert (raw !! length pre = Some ft) as Hft
      by (subst raw; apply list_lookup_middle; done).
    unfold getitem at 1. rewrite Hft. cbn [bind].
    set (row := slice raw (length pre + 1) (length pre + 1 + row_len)).
    assert (row = take row_len rest) as Hrow.
    { subst row raw. unfold slice.
      replace (length pre + 1 + row_len - (length pre + 1))%nat
        with row_len by lia.
      rewrite (cons_middle ft pre rest), app_assoc.
      rewrite drop_app_length'; [done|]. rewrite length_app. simpl. lia. }
    assert (length row = row_len) as Hrowlen
      by (rewrite Hrow, length_take; lia).
    set (prev' := if decide (0 < y)%nat then _ else replicate row_len 0).
    assert (prev' = prev) as ->.
    { subst prev'. case_decide as Hy; [|symmetry; apply Hzero; lia].
      unfold slice.
      replace (y * row_len - (y - 1) * row_len)%nat with row_len by nia.
      rewrite <- app_assoc, drop_app_length' by done.
      by rewrite take_app_length' by done. }
    destruct (decide (0 ≤ ft ≤ 4)) as [Hvalid|Hbad].
    + rewrite <- Hrowlen at 1. rewrite unfilter_ok by (done || lia).
      cbn [bind]. set (r := Spec.row ft bpp prev [] row).
      assert (length r = row_len) as Hr
        by (subst r; rewrite length_spec_row; simpl; lia).
      set (done := if decide (0 < y)%nat then before ++ prev else []).
      assert (length done = (y * row_len)%nat) as Hdone.
      { subst done. case_decide; [|simpl; nia].
        rewrite length_app. nia. }
      rewrite slice_assign_middle; [|lia|lia|rewrite length_replicate; lia].
      replace ((y + 1) * row_len - y * row_len)%nat with row_len by lia.
      rewrite drop_replicate.
      replace (S n * row_len - row_len)%nat with (n * row_len)%nat by lia.
      specialize (IH (S y) (pre ++ ft :: row) (drop row_len rest) done r).
      rewrite decide_True in IH by lia.
      replace (length pre + 1 + row_len)%nat
        with (length (pre ++ ft :: row))
        by (rewrite length_app; simpl; lia).
      rewrite IH.
      * rewrite <- Hrow. fold r.
        destruct (first_bad_filter row_len n (drop row_len rest)); [done|].
        by rewrite <- app_assoc.
      * subst raw. rewrite <- app_assoc. simpl. rewrite Hrow.
        by rewrite take_drop.
      * rewrite length_drop. lia.
      * rewrite Hdone. f_equal. lia.
      * done.
      * lia.
    + by rewrite unfilter_unknown.
Qed.

Lemma reconstruct_cases (bpp width height : nat) (raw : list Z) :
  (0 < bpp)%nat →
  length raw = (height * (1 + width * bpp))%nat →
  reconstruct bpp width height raw
  = match first_bad_filter (width * bpp) height raw with
    | Some filter_type => Raise (ValueError (UnknownFilterType filter_type))
    | None => Ok (Spec.raster bpp width height raw)
    end.
Proof.
  intros Hbpp Hlen. unfold reconstruct, Spec.raster.
  pose proof (scanline_loop bpp (width * bpp) raw Hbpp height 0 [] raw []
                (replicate (width * bpp) 0)) as H.
  rewrite decide_False in H by lia. simpl in H.
  rewrite H; [|done|done|done|by rewrite length_replicate|done].
  by destruct (first_bad_filter _ _ _).
Qed.

(** ** Which rows carry a known filter type *)

Lemma first_bad_filter_None (row_len n : nat) (stream : list Z) :
  first_bad_filter row_len n stream = None ↔
  ∀ y ft, (y < n)%nat → stream !! (y * (1 + row_len))%nat = Some ft →
          0 ≤ ft ≤ 4.
Proof.
  revert stream. induction n as [|n IH]; intros stream; simpl.
  - split; [intros _ y ft Hy; lia|done].
  - destruct stream as [|f rest]; [split; [by intros _ y ft _|done]|].
    case_decide as Hf.
    + rewrite IH. split.
      * intros H [|y] ft Hy; simpl; [by intros [= <-]|].
        intros Hl. apply (H y ft); [lia|].
        rewrite lookup_drop. rewrite <- Hl. f_equal; lia.
      * intros H y ft Hy Hl. apply (H (S y) ft); [lia|].
        rewrite lookup_drop in Hl. simpl. rewrite <- Hl. f_equal; lia.
    + split; [done|]. intros H. destruct Hf. by apply (H 0%nat f); [lia|].
Qed.

Lemma first_bad_filter_Some (row_len n : nat) (stream : list Z) (ft : Z) :
  first_bad_filter row_len n stream = Some ft → ¬ (0 ≤ ft ≤ 4).
Proof.
  revert stream. induction n as [|n IH]; intros stream; simpl; [done|].
  destruct stream as [|f rest]; [done|].
  case_decide; [apply IH|]. by intros [= <-].
Qed.

(** ** The raster, byte by byte *)

Lemma byte_at_app_r (l k : list Z) (i : nat) :
  Spec.byte_at (l ++ k) (length l + i) = Spec.byte_at k i.
Proof.
  unfold Spec.byte_at. rewrite lookup_app_r by lia.
  do 2 f_equal. lia.
Qed.

Lemma byte_at_replicate (n i : nat) : Spec.byte_at (replicate n 0) i = 0.
Proof.
  unfold Spec.byte_at. destruct (replicate n 0 !! i) eqn:E; [|done].
  by apply lookup_replicate in E as [-> _].
Qed.

Lemma row_extends (filter_type : Z) (bpp : nat)
    (prev done filtered : list Z) :
  ∃ tail, Spec.row filter_type bpp prev done filtered = done ++ tail.
Proof.
  revert done. induction filtered as [|f filtered IH]; intros done; simpl.
  - exists []. by rewrite app_nil_r.
  - destruct (IH (done ++ [Spec.value filter_type bpp prev done f]))
      as [tail ->].
    eexists. by rewrite <- app_assoc.
Qed.

Lemma row_lookup (filter_type : Z) (bpp : nat) (prev : list Z) :
  (0 < bpp)%nat →
  ∀ filtered done x f,
    filtered !! x = Some f →
    let R := Spec.row filter_type bpp prev done filtered in
    let i := (length done + x)%nat in
    R !! i = Some (Spec.inverse filter_type f
                     (if decide (i < bpp)%nat then 0
                      else Spec.byte_at R (i - bpp))
                     (Spec.byte_at prev i)
                     (if decide (i < bpp)%nat then 0
                      else Spec.byte_at prev (i - bpp))).
Proof.
  intros Hbpp. induction filtered as [|f0 filtered IH];
    intros acc x f Hf; [by destruct x|].
  destruct x as [|x]; simpl in Hf.
  - injection Hf as ->. simpl.
    destruct (row_extends filter_type bpp prev
                (acc ++ [Spec.value filter_type bpp prev acc f]) filtered)
      as [tail ->].
    rewrite <- !app_assoc. simpl. rewrite Nat.add_0_r.
    rewrite list_lookup_middle by done. f_equal.
    unfold Spec.value. case_decide; [done|].
    by rewrite byte_at_app_l by lia.
  - simpl.
    specialize (IH (acc ++ [Spec.value filter_type bpp prev acc f0]) x f Hf).
    simpl in IH. rewrite length_app in IH. simpl in IH.
    replace (length acc + 1 + x)%nat with (length acc + S x)%nat
      in IH by lia.
    done.
Qed.

Lemma rows_lookup (bpp row_len : nat) :
  (0 < bpp)%nat →
  ∀ n stream prev y x,
    length stream = (n * (1 + row_len))%nat →
    (y < n)%nat → (x < row_len)%nat →
    let R := Spec.rows bpp row_len prev n stream in
    R !! (y * row_len + x)%nat
    = Some (Spec.inverse
              (Spec.byte_at stream (y * (1 + row_len)))
              (Spec.byte_at stream (y * (1 + row_len) + 1 + x))
              (left_in bpp row_len R y x)
              (up_in row_len prev R y x)
              (up_left_in bpp row_len prev R y x)).
Proof.
  intros Hbpp. induction n as [|n IH]; intros stream prev y x Hlen Hy Hx;
    [lia|].
  destruct stream as [|ft rest]; [done|]. simpl in Hlen. simpl.
  set (r := Spec.row ft bpp prev [] (take row_len rest)).
  assert (length r = row_len) as Hr.
  { subst r. rewrite length_spec_row, length_take. simpl. lia. }
  set (R' := Spec.rows bpp row_len r n (drop row_len rest)).
  destruct y as [|y].
  - simpl. rewrite lookup_app_l by lia.
    assert (take row_len rest !! x = Some (Spec.byte_at rest x)) as Hf.
    { rewrite lookup_take_lt by done. unfold Spec.byte_at.
      destruct (lookup_lt_is_Some_2 rest x) as [v ->]; [lia|done]. }
    pose proof (row_lookup ft bpp prev Hbpp _ [] x _ Hf) as H.
    simpl in H. fold r in H. rewrite H. f_equal.
    unfold left_in, up_in, up_left_in. simpl.
    repeat case_decide; try done; try lia.
    by rewrite byte_at_app_l by lia.
  - replace (S y * row_len + x)%nat with (length r + (y * row_len + x))%nat
      by lia.
    rewrite lookup_app_r by lia.
    replace (length r + (y * row_len + x) - length r)%nat
      with (y * row_len + x)%nat by lia.
    specialize (IH (drop row_len rest) r y x).
    cbv zeta in IH. fold R' in IH.
    rewrite IH by (rewrite ?length_drop; lia).
    assert (∀ i, Spec.byte_at (drop row_len rest) i
                 = Spec.byte_at (ft :: rest) (1 + row_len + i)) as Hdrop.
    { intros i. unfold Spec.byte_at. simpl. by rewrite lookup_drop. }
    assert (∀ i, Spec.byte_at R' i = Spec.byte_at (r ++ R') (row_len + i))
      as Hshift.
    { intros i. by rewrite <- Hr, byte_at_app_r. }
    rewrite !Hdrop. f_equal. f_equal; try (f_equal; lia).
    + unfold left_in. case_decide; [done|]. rewrite Hshift. f_equal; lia.
    + unfold up_in. rewrite (decide_False (P := (S y = 0)%nat)) by lia.
      case_decide.
      * subst y. rewrite byte_at_app_l by lia. f_equal; lia.
      * rewrite Hshift. f_equal. destruct y; [done|]. simpl. lia.
    + unfold up_left_in. case_decide; [done|].
      rewrite (decide_False (P := (S y = 0)%nat)) by lia.
      case_decide.
      * subst y. rewrite byte_at_app_l by lia. f_equal; lia.
      * rewrite Hshift. f_equal. destruct y; [done|]. simpl. lia.
Qed.

Lemma length_spec_rows (bpp row_len : nat) :
  ∀ n stream prev,
    length stream = (n * (1 + row_len))%nat →
    length (Spec.rows bpp row_len prev n stream) = (n * row_len)%nat.
Proof.
  induction n as [|n IH]; intros stream prev Hlen; [done|].
  destruct stream as [|ft rest]; [done|]. simpl in Hlen. simpl.
  rewrite length_app, length_spec_row, length_take, IH
    by (rewrite length_drop; lia).
  simpl. lia.
Qed.

Lemma raster_lookup (bpp width height : nat) (raw : list Z) (y x : nat) :
  (0 < bpp)%nat →
  length raw = (height * (1 + width * bpp))%nat →
  (y < height)%nat → (x < width * bpp)%nat →
  let row_len := (width * bpp)%nat in
  let R := Spec.raster bpp width height raw in
  R !! (y * row_len + x)%nat
  = Some (Spec.inverse
            (Spec.byte_at raw (y * (1 + row_len)))
            (Spec.byte_at raw (y * (1 + row_len) + 1 + x))
            (neighbour_left bpp row_len R y x)
            (neighbour_up row_len R y x)
            (neighbour_up_left bpp row_len R y x)).
Proof.
  intros Hbpp Hlen Hy Hx. simpl. unfold Spec.raster.
  rewrite rows_lookup by done. f_equal.
  unfold left_in, up_in, up_left_in.
  unfold neighbour_left, neighbour_up, neighbour_up_left.
  rewrite !byte_at_replicate. f_equal.
  repeat case_decide; done || lia.
Qed.

(** ** The chunk loop *)

Lemma chunk_body_progress (data : list Z) (i i' : nat) (st st' : chunks) :
  chunk_body data i st = Ok (Continue i' st') → (i < i')%nat.
Proof.
  unfold chunk_body. case_decide; [done|].
  destruct (unpack_u32 _) as [n|]; [|done]. cbn [bind].
  case_decide; [done|].
  repeat case_decide;
    try (destruct (unpack_IHDR _); cbn [bind]);
    intros [= <- <-] || intros [=]; lia.
Qed.

(** Any amount of fuel from [len(data) - i] on gives the same result: the
    loop never runs out. *)
Lemma chunk_loop_fuel (data : list Z) (f1 f2 i : nat) (st : chunks) :
  (length data - i ≤ f1)%nat → (length data - i ≤ f2)%nat →
  chunk_loop f1 data i st = chunk_loop f2 data i st.
Proof.
  revert f2 i st. induction f1 as [|f1 IH]; intros [|f2] i st H1 H2; simpl;
    try done; try (by rewrite decide_False by lia).
  case_decide; [|done].
  destruct (chunk_body data i st) as [[i' st'|st']|e] eqn:E; cbn [bind];
    [|done..].
  apply chunk_body_progress in E. apply IH; lia.
Qed.

(** The loop satisfies the equation of [while i < len(data): body]. *)
Lemma chunk_loop_unfold (data : list Z) (fuel i : nat) (st : chunks) :
  (length data - i ≤ fuel)%nat →
  chunk_loop fuel data i st
  = if decide (i < length data)%nat then
      let* r := chunk_body data i st in
      match r with
      | Continue i' st' => chunk_loop fuel data i' st'
      | Break st' => Ok st'
      end
    else Ok st.
Proof.
  intros Hfuel. destruct fuel as [|fuel].
  - simpl. by rewrite decide_False by lia.
  - remember (S fuel) as fuel' eqn:Hfuel'. rewrite Hfuel' at 1. simpl.
    case_decide; [|done].
    destruct (chunk_body data i st) as [[i' st'|st']|e] eqn:E; cbn [bind];
      [|done..].
    apply chunk_body_progress in E. apply chunk_loop_fuel; lia.
Qed.

Lemma unpack_pack_u32 (n : Z) :
  0 ≤ n < 2 ^ 32 → unpack_u32 (pack_u32 n) = Ok n.
Proof.
  intros Hn. unfold unpack_u32, pack_u32. f_equal.
  change (2 ^ 24) with 16777216. change (2 ^ 16) with 65536.
  change (2 ^ 8) with 256. change (2 ^ 32) with 4294967296 in Hn.
  Z.div_mod_to_equations. lia.
Qed.

Lemma slice_middle {A : Type} (pre mid rest : list A) (a b : nat) :
  a = length pre → b = (a + length mid)%nat →
  slice (pre ++ mid ++ rest) a b = mid.
Proof.
  intros -> ->. unfold slice.
  rewrite drop_app_length.
  replace (length pre + length mid - length pre)%nat with (length mid) by lia.
  by rewrite take_app_length.
Qed.

Lemma length_chunk_bytes (c : chunk) :
  complete c →
  length (chunk_bytes c) = (8 + length (chunk_data c) + 4)%nat.
Proof.
  intros (Hty & Hcrc & _). unfold chunk_bytes.
  rewrite !length_app, Hty, Hcrc. simpl. lia.
Qed.

Section ChunkAt.

Variables (pre rest : list Z) (c : chunk) (st : chunks).
Hypothesis c_complete : complete c.

Lemma chunk_fields :
  ∀ data, data = pre ++ chunk_bytes c ++ rest →
  (length pre + 8 + length (chunk_data c) + 4 ≤ length data)%nat ∧
  unpack_u32 (slice data (length pre) (length pre + 4))
  = Ok (Z.of_nat (length (chunk_data c))) ∧
  slice data (length pre + 4) (length pre + 8) = chunk_type c ∧
  slice data (length pre + 8) (length pre + 8 + length (chunk_data c))
  = chunk_data c.
Proof using c_complete.
  pose proof (length_chunk_bytes c c_complete) as Hlen.
  destruct c_complete as (Hty & Hcrc & Hfit).
  intros data ->. unfold chunk_bytes in *. split_and!.
  - rewrite !length_app in *. lia.
  - rewrite <- !app_assoc.
    rewrite (slice_middle pre (pack_u32 _)) by done.
    apply unpack_pack_u32. lia.
  - rewrite <- !app_assoc.
    rewrite (app_assoc pre (pack_u32 _)).
    apply slice_middle; rewrite ?length_app; simpl; lia.
  - rewrite <- !app_assoc.
    rewrite (app_assoc pre (pack_u32 _)), (app_assoc (pre ++ _)).
    apply slice_middle; rewrite ?length_app; simpl; lia.
Qed.

Lemma chunk_body_absorb :
  chunk_type c ≠ IEND →
  chunk_body (pre ++ chunk_bytes c ++ rest) (length pre) st
  = let* st' := absorb st c in
    Ok (Continue (length pre + length (chunk_bytes c)) st').
Proof using c_complete.
  intros Hty. destruct (chunk_fields _ eq_refl) as (Hlen & Hn & Ht & Hd).
  unfold chunk_body. rewrite decide_False by lia.
  rewrite Hn. cbn [bind]. rewrite Nat2Z.id.
  rewrite decide_False by lia. rewrite Ht, Hd.
  rewrite length_chunk_bytes by done.
  replace (length pre + 8 + length (chunk_data c) + 4)%nat
    with (length pre + (8 + length (chunk_data c) + 4))%nat by lia.
  unfold absorb. repeat case_decide; try done.
  by destruct (unpack_IHDR _).
Qed.

Lemma chunk_body_IEND :
  chunk_type c = IEND →
  chunk_body (pre ++ chunk_bytes c ++ rest) (length pre) st
  = Ok (Break st).
Proof using c_complete.
  intros Hty. destruct (chunk_fields _ eq_refl) as (Hlen & Hn & Ht & Hd).
  unfold chunk_body. rewrite decide_False by lia.
  rewrite Hn. cbn [bind]. rewrite Nat2Z.id.
  rewrite decide_False by lia. rewrite Ht, Hty.
  by repeat case_decide.
Qed.

End ChunkAt.

Lemma chunks_bytes_cons (c : chunk) (cs : list chunk) :
  chunks_bytes (c :: cs) = chunk_bytes c ++ chunks_bytes cs.
Proof. done. Qed.

Lemma chunk_loop_absorb_all (cs : list chunk) :
  Forall complete cs →
  Forall (λ c, chunk_type c ≠ IEND) cs →
  ∀ pre rest st fuel,
    (length (chunks_bytes cs ++ rest) ≤ fuel)%nat →
    chunk_loop fuel (pre ++ chunks_bytes cs ++ rest) (length pre) st
    = let* st' := absorb_all st cs in
      chunk_loop fuel (pre ++ chunks_bytes cs ++ rest)
        (length pre + length (chunks_bytes cs)) st'.
Proof.
  induction cs as [|c cs IH]; intros Hcomplete Hty pre rest st fuel Hfuel.
  - simpl. by rewrite Nat.add_0_r.
  - apply Forall_cons in Hcomplete as [Hc Hcs].
    apply Forall_cons in Hty as [Hc' Hcs'].
    rewrite chunks_bytes_cons in *. rewrite <- !app_assoc in *.
    pose proof (length_chunk_bytes c Hc) as Hlen.
    rewrite !length_app in Hfuel.
    rewrite chunk_loop_unfold by (rewrite !length_app; lia).
    rewrite decide_True by (rewrite !length_app; lia).
    rewrite chunk_body_absorb by done.
    cbn [absorb_all].
    destruct (absorb st c) as [st1|e]; cbn [bind]; [|done].
    specialize (IH Hcs Hcs' (pre ++ chunk_bytes c) rest st1 fuel).
    rewrite <- !app_assoc, !length_app in IH.
    rewrite IH by lia.
    destruct (absorb_all st1 cs); cbn [bind]; [|done].
    f_equal. rewrite !length_app. lia.
Qed.

Lemma chunk_body_truncated (pre tail : list Z) (st : chunks) :
  truncated tail →
  chunk_body (pre ++ tail) (length pre) st
  = Raise (ValueError (truncation_error tail)).
Proof.
  intros [Hpos Htail]. unfold chunk_body, truncation_error.
  rewrite length_app. destruct (decide (length tail < 8)%nat) as [Hlt|Hge].
  { by rewrite decide_True by lia. }
  rewrite decide_False by lia.
  destruct Htail as [?|(n & Hn & Htail)]; [lia|].
  assert (slice (pre ++ tail) (length pre) (length pre + 4) = take 4 tail)
    as ->.
  { unfold slice. rewrite drop_app_length. f_equal. lia. }
  rewrite Hn. cbn [bind]. by rewrite decide_True by lia.
Qed.

(** [read_chunks] on a file made of the signature, complete chunks, and
    whatever follows them. *)
Lemma read_chunks_prefix (cs : list chunk) (rest : list Z) :
  Forall complete cs →
  Forall (λ c, chunk_type c ≠ IEND) cs →
  let data := PNG_SIGNATURE ++ chunks_bytes cs ++ rest in
  read_chunks data
  = let* st := absorb_all no_chunks cs in
    chunk_loop (length data - 8) data (8 + length (chunks_bytes cs)) st.
Proof.
  intros Hcomplete Hty data. unfold read_chunks.
  rewrite decide_True by done. subst data.
  change (length PNG_SIGNATURE) with 8%nat.
  rewrite (chunk_loop_absorb_all cs Hcomplete Hty PNG_SIGNATURE); [done|].
  rewrite (length_app PNG_SIGNATURE). simpl. lia.
Qed.

Lemma first_bad_filter_first (row_len n : nat) (stream : list Z) (ft : Z) :
  first_bad_filter row_len n stream = Some ft →
  ∃ y, (y < n)%nat ∧ stream !! (y * (1 + row_len))%nat = Some ft ∧
       ∀ y' ft', (y' < y)%nat →
                 stream !! (y' * (1 + row_len))%nat = Some ft' →
                 0 ≤ ft' ≤ 4.
Proof.
  revert stream. induction n as [|n IH]; intros stream; simpl; [done|].
  destruct stream as [|f rest]; [done|]. case_decide as Hf.
  - intros (y & Hy & Hl & Hbefore)%IH. exists (S y). split_and!; [lia|..].
    + rewrite lookup_drop in Hl. simpl. rewrite <- Hl. f_equal; lia.
    + intros [|y'] ft' Hy'; simpl; [by intros [= <-]|].
      intros Hl'. apply (Hbefore y' ft'); [lia|].
      rewrite lookup_drop. rewrite <- Hl'. f_equal; lia.
  - intros [= <-]. exists 0%nat. split_and!; [lia|done|]. intros; lia.
Qed.

(** ** The verdict *)

Lemma every_lookup {A : Type} (s : nat) (l : list A) :
  ∀ skip j, every (S s) skip l !! j = l !! (skip + j * S s)%nat.
Proof.
  induction l as [|a l IH]; intros skip j; simpl.
  - by rewrite !lookup_nil.
  - destruct skip as [|skip]; simpl.
    + destruct j as [|j]; simpl; [done|].
      rewrite IH. f_equal. lia.
    + by rewrite IH.
Qed.

Lemma any_below_255_true (l : list Z) :
  any_below_255 l = true ↔ ∃ i a, l !! i = Some a ∧ a < 255.
Proof.
  unfold any_below_255. rewrite existsb_exists. split.
  - intros (a & Hin & Ha). apply list_elem_of_In, list_elem_of_lookup in Hin.
    destruct Hin as [i Hi]. exists i, a. split; [done|lia].
  - intros (i & a & Hi & Ha). exists a. split; [|lia].
    apply list_elem_of_In, list_elem_of_lookup. eauto.
Qed.

Lemma alpha_below_255 (out : list Z) :
  any_below_255 (slice_from_step out 3 4) = true ↔
  ∃ k a, out !! (4 * k + 3)%nat = Some a ∧ a < 255.
Proof.
  rewrite any_below_255_true. unfold slice_from_step.
  split; intros (k & a & Hk & Ha); exists k, a; split; try done;
    rewrite every_lookup in *; rewrite <- Hk; f_equal; lia.
Qed.

(** ** From the chunks to the verdict *)

Section Interpret.

Variable inflate : list Z → option (list Z).
Variables (st : chunks) (w h : nat) (bd ct : Z).
Hypothesis st_width : width st = Some w.
Hypothesis st_height : height st = Some h.
Hypothesis st_bit_depth : bit_depth st = Some bd.
Hypothesis st_color_type : color_type st = Some ct.

Lemma interpret_bit_depth :
  bd ≠ 8 → interpret inflate st = Raise (ValueError (UnsupportedBitDepth bd)).
Proof using All.
  intros Hbd. unfold interpret.
  rewrite st_width, st_height, st_bit_depth, st_color_type.
  by rewrite decide_True.
Qed.

Lemma interpret_pixels :
  bd = 8 → ct = 6 ∨ ct = 3 →
  interpret inflate st = decode_pixels inflate st w h ct (bpp_of ct).
Proof using All.
  intros Hbd Hct. unfold interpret, bpp_of.
  rewrite st_width, st_height, st_bit_depth, st_color_type.
  rewrite decide_False by (intros ?; done).
  destruct Hct as [-> | ->]; by repeat case_decide.
Qed.

Lemma interpret_no_alpha :
  bd = 8 → ct ∈ [0; 2; 4] → interpret inflate st = Ok false.
Proof using All.
  intros Hbd Hct. unfold interpret.
  rewrite st_width, st_height, st_bit_depth, st_color_type.
  rewrite decide_False by (intros ?; done).
  rewrite !elem_of_cons, elem_of_nil in Hct.
  rewrite !decide_False by lia.
  rewrite decide_True; [done|]. rewrite !elem_of_cons. tauto.
Qed.

Lemma interpret_color_type :
  bd = 8 → ct ∉ [0; 2; 3; 4; 6] →
  interpret inflate st = Raise (ValueError (UnsupportedColorType ct)).
Proof using All.
  intros Hbd Hct. unfold interpret.
  rewrite st_width, st_height, st_bit_depth, st_color_type.
  rewrite decide_False by (intros ?; done).
  rewrite !elem_of_cons, elem_of_nil in Hct.
  rewrite !decide_False; [done|..]; try lia.
  rewrite !elem_of_cons, elem_of_nil. lia.
Qed.

Lemma decode_pixels_size (bpp : nat) (raw : list Z) :
  inflate (idat st) = Some raw →
  length raw ≠ (h * (1 + w * bpp))%nat →
  decode_pixels inflate st w h ct bpp
  = Raise (ValueError UnexpectedDecompressedSize).
Proof.
  intros Hraw Hlen. unfold decode_pixels. rewrite Hraw.
  by rewrite decide_True.
Qed.

Lemma decode_pixels_sized (bpp : nat) (raw : list Z) :
  inflate (idat st) = Some raw →
  length raw = (h * (1 + w * bpp))%nat →
  decode_pixels inflate st w h ct bpp
  = let* out := reconstruct bpp w h raw in
    Ok (verdict ct (trns_chunk st) out).
Proof.
  intros Hraw Hlen. unfold decode_pixels, verdict. rewrite Hraw.
  rewrite decide_False by (intros ?; done).
  destruct (reconstruct bpp w h raw); cbn [bind]; [|done].
  case_decide; [done|]. by destruct (trns_chunk st).
Qed.

End Interpret.

Lemma png_interpret (inflate : list Z → option (list Z)) (data : list Z)
    (st : chunks) :
  read_chunks data = Ok st →
  png_has_transparency inflate data = interpret inflate st.
Proof. intros H. unfold png_has_transparency. by rewrite H. Qed.

Lemma bpp_of_pos (ct : Z) : (0 < bpp_of ct)%nat.
Proof. unfold bpp_of. case_decide; lia. Qed.

Lemma check_icons_app (inflate : list Z → option (list Z))
    (fs : string → file) (a b : list string) :
  check_icons inflate fs (a ++ b)
  = check_icons inflate fs a ++ check_icons inflate fs b.
Proof.
  induction a as [|p a IH]; simpl; [done|]. by rewrite IH, app_assoc.
Qed.

Lemma png_pixels (inflate : list Z → option (list Z)) (data : list Z)
    (st : chunks) (w h : nat) (ct : Z) (raw : list Z) :
  read_chunks data = Ok st →
  width st = Some w → height st = Some h →
  bit_depth st = Some 8 → color_type st = Some ct →
  ct = 6 ∨ ct = 3 →
  inflate (idat st) = Some raw →
  length raw = (h * (1 + w * bpp_of ct))%nat →
  png_has_transparency inflate data
  = let* out := reconstruct (bpp_of ct) w h raw in
    Ok (verdict ct (trns_chunk st) out).
Proof.
  intros Hread Hw Hh Hbd Hct Hpix Hraw Hlen.
  rewrite (png_interpret _ _ _ Hread).
  rewrite (interpret_pixels inflate st w h 8 ct) by done.
  by rewrite (decode_pixels_sized inflate st w h ct _ raw).
Qed.

Lemma unpack_IHDR_wrong_size (b : list Z) :
  length b ≠ 13%nat → unpack_IHDR b = Raise StructError.
Proof.
  intros Hlen. unfold unpack_IHDR.
  do 13 (destruct b as [|? b]; [done|]). by destruct b.
Qed.

Lemma absorb_other (st : chunks) (c : chunk) :
  chunk_type c ≠ IHDR →
  ∃ st', absorb st c = Ok st' ∧ width st' = width st.
Proof.
  intros Hty. unfold absorb. rewrite decide_False by done.
  repeat case_decide; eauto.
Qed.

Lemma absorb_all_other (cs : list chunk) :
  Forall (λ c, chunk_type c ≠ IHDR) cs →
  ∀ st, ∃ st', absorb_all st cs = Ok st' ∧ width st' = width st.
Proof.
  induction 1 as [|c cs Hc _ IH]; intros st; simpl; [eauto|].
  destruct (absorb_other st c Hc) as (st1 & -> & Hw1). cbn [bind].
  destruct (IH st1) as (st' & -> & Hw'). exists st'. split; congruence.
Qed.

Lemma interpret_missing (inflate : list Z → option (list Z)) (st : chunks) :
  width st = None → interpret inflate st = Raise (ValueError MissingIHDR).
Proof. intros H. unfold interpret. by rewrite H. Qed.

(** ** [main] *)




Lemma paeth_ties : _paeth 5 5 5 = 5 ∧ _paeth 10 5 0 = 10 ∧ _paeth 0 7 7 = 0.
Proof. done. Qed.

(** * The claims *)

(** ** Scanline reconstruction *)

(** C1.  On a decompressed stream of exactly [height * (1 + row_length)]
    bytes whose filter-type bytes are all in 0..4, the scanline
    reconstructor returns the raster of the specification: each row by the
    five-variant inverse filter (type 0 unchanged, type 1 adds the
    reconstructed byte at [x - bpp], type 2 adds [prev[x]], type 3 adds
    [floor((left + prev[x]) / 2)], type 4 adds the Paeth predictor, all
    modulo 256), and [_paeth] is the specification's predictor, ties going
    to [a], then [b]. *)
Theorem C1_reconstruct_is_spec_raster (bpp width height : nat)
    (raw : list Z) :
  (0 < bpp)%nat →
  length raw = (height * (1 + width * bpp))%nat →
  (∀ y, (y < height)%nat →
        ∃ ft, raw !! (y * (1 + width * bpp))%nat = Some ft ∧ 0 ≤ ft ≤ 4) →
  reconstruct bpp width height raw = Ok (Spec.raster bpp width height raw) ∧
  ∀ a b c, _paeth a b c = Spec.paeth a b c.
Proof.
  intros Hbpp Hlen Hfilters. split; [|apply paeth_spec].
  rewrite reconstruct_cases by done.
  assert (first_bad_filter (width * bpp) height raw = None) as ->; [|done].
  apply first_bad_filter_None. intros y ft Hy Hft.
  destruct (Hfilters y Hy) as (ft' & Hft' & Hvalid). congruence.
Qed.

Lemma C1_witness :
  reconstruct 1 3 2 [3; 10; 20; 30; 4; 250; 251; 7]
  = Ok [10; 25; 42; 4; 20; 49].
Proof.
  refine (proj1 (C1_reconstruct_is_spec_raster 1 3 2
                   [3; 10; 20; 30; 4; 250; 251; 7] _ _ _)).
  - lia.
  - reflexivity.
  - intros [|[|y]] Hy; [exists 3|exists 4|lia]; (split; [reflexivity|lia]).
Defined.

(** C4.  Reconstruction treats every reference outside the data as the
    byte 0 and never fails over one.  On a stream of the checked size:
    when every row has a filter type in 0..4 a raster is returned, whatever
    the filter of row 0 and of the first [bpp] bytes of a row; the only
    exception there can be is the "unknown filter type" of a row whose
    filter-type byte is outside 0..4, never a subscript out of range; and
    in the raster the byte at [x] of row [y] is the inverse filter applied
    with [left = 0] and [up_left = 0] where [x < bpp], and with [up = 0]
    and [up_left = 0] in row 0 (the virtual all-zero previous row). *)
Theorem C4_outside_references_are_zero (bpp width height : nat)
    (raw : list Z) :
  (0 < bpp)%nat →
  length raw = (height * (1 + width * bpp))%nat →
  let row_len := (width * bpp)%nat in
  ((∀ y, (y < height)%nat →
         ∃ ft, raw !! (y * (1 + row_len))%nat = Some ft ∧ 0 ≤ ft ≤ 4) →
   ∃ out, reconstruct bpp width height raw = Ok out) ∧
  (∀ e,
     reconstruct bpp width height raw = Raise e →
     ∃ y ft, (y < height)%nat ∧
             raw !! (y * (1 + row_len))%nat = Some ft ∧
             ¬ (0 ≤ ft ≤ 4) ∧
             e = ValueError (UnknownFilterType ft)) ∧
  ∀ out,
    reconstruct bpp width height raw = Ok out →
    length out = (height * row_len)%nat ∧
    ∀ y x, (y < height)%nat → (x < row_len)%nat →
      out !! (y * row_len + x)%nat
      = Some (Spec.inverse
                (Spec.byte_at raw (y * (1 + row_len)))
                (Spec.byte_at raw (y * (1 + row_len) + 1 + x))
                (neighbour_left bpp row_len out y x)
                (neighbour_up row_len out y x)
                (neighbour_up_left bpp row_len out y x)).
Proof.
  intros Hbpp Hlen row_len. rewrite reconstruct_cases by done.
  destruct (first_bad_filter (width * bpp) height raw) as [ft|] eqn:E.
  - pose proof (first_bad_filter_Some _ _ _ _ E) as Hbad.
    apply first_bad_filter_first in E as (y & Hy & Hft & _).
    split_and!; [|intros e [= <-]; by exists y, ft|done].
    intros Hvalid. destruct (Hvalid y Hy) as (ft' & Hft' & Hok).
    subst row_len. rewrite Hft in Hft'. injection Hft' as <-. done.
  - split_and!; [by eauto|done|]. intros out [= <-]. split.
    + unfold Spec.raster. by rewrite length_spec_rows.
    + intros y x Hy Hx. by apply raster_lookup.
Qed.

Lemma C4_witness :
  ∃ out,
    reconstruct 1 3 2 [3; 10; 20; 30; 4; 250; 251; 7] = Ok out ∧
    out !! 0%nat = Some (Spec.inverse 3 10 0 0 0) ∧
    out !! 3%nat = Some (Spec.inverse 4 250 0 (Spec.byte_at out 0) 0).
Proof.
  destruct (C4_outside_references_are_zero 1 3 2
              [3; 10; 20; 30; 4; 250; 251; 7] ltac:(lia) eq_refl)
    as (Hsucceeds & _ & Hbytes).
  destruct Hsucceeds as [out Hout].
  { intros [|[|y]] Hy; [exists 3|exists 4|lia]; (split; [reflexivity|lia]). }
  exists out. split; [exact Hout|].
  destruct (Hbytes out Hout) as [_ Hbyte]. split.
  - apply (Hbyte 0%nat 0%nat); lia.
  - apply (Hbyte 1%nat 0%nat); lia.
Defined.

(** C6.  When some row of a stream of the right size has a filter-type
    byte outside 0..4, [png_has_transparency] raises the "unknown PNG
    filter type" error for the first such row, and [main] records that
    failure for this icon and goes on to check the icons after it. *)
Theorem C6_unknown_filter_type (inflate : list Z → option (list Z))
    (data : list Z) (st : chunks) (w h : nat) (ct : Z) (raw : list Z)
    (y : nat) (ft : Z) :
  read_chunks data = Ok st →
  width st = Some w → height st = Some h →
  bit_depth st = Some 8 → color_type st = Some ct →
  ct = 6 ∨ ct = 3 →
  inflate (idat st) = Some raw →
  length raw = (h * (1 + w * bpp_of ct))%nat →
  (y < h)%nat →
  raw !! (y * (1 + w * bpp_of ct))%nat = Some ft →
  ¬ (0 ≤ ft ≤ 4) →
  ∃ y' ft',
    (y' ≤ y)%nat ∧ raw !! (y' * (1 + w * bpp_of ct))%nat = Some ft' ∧
    ¬ (0 ≤ ft' ≤ 4) ∧
    png_has_transparency inflate data
    = Raise (ValueError (UnknownFilterType ft')) ∧
    ∀ fs before icon_path after,
      fs icon_path = Bytes data →
      check_icons inflate fs (before ++ icon_path :: after)
      = check_icons inflate fs before
          ++ [FailedToValidate icon_path (ValueError (UnknownFilterType ft'))]
          ++ check_icons inflate fs after.
Proof.
  intros Hread Hw Hh Hbd Hct Hpix Hraw Hlen Hy Hft Hbad.
  pose proof (png_pixels inflate data st w h ct raw
                Hread Hw Hh Hbd Hct Hpix Hraw Hlen) as Hpng.
  rewrite reconstruct_cases in Hpng by (done || apply bpp_of_pos).
  destruct (first_bad_filter (w * bpp_of ct) h raw) as [ft'|] eqn:E.
  - pose proof (first_bad_filter_Some _ _ _ _ E) as Hbad'.
    apply first_bad_filter_first in E as (y' & Hy' & Hft' & Hbefore).
    exists y', ft'. split_and!; try done.
    + destruct (decide (y' ≤ y)%nat); [done|].
      destruct Hbad. apply (Hbefore y ft); [lia|done].
    + intros fs before icon_path after Hfs.
      rewrite check_icons_app. simpl. unfold check_icon at 1.
      by rewrite Hfs, Hpng.
  - destruct Hbad. by eapply first_bad_filter_None.
Qed.

Lemma C6_witness :
  png_has_transparency inflate_stored (png_file 1 1 8 3 None [5; 1])
  = Raise (ValueError (UnknownFilterType 5)).
Proof.
  destruct (C6_unknown_filter_type inflate_stored
              (png_file 1 1 8 3 None [5; 1])
              (png_file_chunks 1 1 8 3 None [5; 1]) 1 1 3 [5; 1] 0 5
              eq_refl eq_refl eq_refl eq_refl eq_refl (or_intror eq_refl)
              eq_refl eq_refl ltac:(lia) eq_refl ltac:(lia))
    as (y' & ft' & Hy' & Hft' & _ & Hpng & _).
  assert (y' = 0%nat) as -> by lia.
  injection Hft' as <-. exact Hpng.
Defined.

(** ** The verdict *)

(** C2.  For a direct-alpha (colour type 6) asset whose raster was
    reconstructed, [png_has_transparency] returns true exactly when some
    byte at an offset [4 * k + 3] of the raster is below 255; a single
    pixel with alpha 254 gives true, with alpha 255 false. *)
Theorem C2_direct_alpha (inflate : list Z → option (list Z))
    (data : list Z) (st : chunks) (w h : nat) (raw out : list Z) :
  read_chunks data = Ok st →
  width st = Some w → height st = Some h →
  bit_depth st = Some 8 → color_type st = Some 6 →
  inflate (idat st) = Some raw →
  length raw = (h * (1 + w * 4))%nat →
  reconstruct 4 w h raw = Ok out →
  ∃ b,
    png_has_transparency inflate data = Ok b ∧
    (b = true ↔ ∃ k a, out !! (4 * k + 3)%nat = Some a ∧ a < 255) ∧
    (∀ r g bl, out = [r; g; bl; 254] → b = true) ∧
    (∀ r g bl, out = [r; g; bl; 255] → b = false).
Proof.
  intros Hread Hw Hh Hbd Hct Hraw Hlen Hout.
  rewrite (png_pixels inflate data st w h 6 raw) by (done || by left).
  change (bpp_of 6) with 4%nat. rewrite Hout. cbn [bind].
  eexists. split; [done|]. unfold verdict. rewrite decide_True by done.
  split; [apply alpha_below_255|]. by split; intros r g bl ->.
Qed.

Lemma C2_witness :
  png_has_transparency inflate_stored (png_file 1 1 8 6 None [0; 1; 2; 3; 254])
  = Ok true ∧
  png_has_transparency inflate_stored (png_file 1 1 8 6 None [0; 1; 2; 3; 255])
  = Ok false.
Proof.
  split.
  - destruct (C2_direct_alpha inflate_stored
                (png_file 1 1 8 6 None [0; 1; 2; 3; 254])
                (png_file_chunks 1 1 8 6 None [0; 1; 2; 3; 254])
                1 1 [0; 1; 2; 3; 254] [1; 2; 3; 254]
                eq_refl eq_refl eq_refl eq_refl eq_refl eq_refl eq_refl
                eq_refl)
      as (b & Hpng & _ & Htrue & _).
    by rewrite Hpng, (Htrue 1 2 3).
  - destruct (C2_direct_alpha inflate_stored
                (png_file 1 1 8 6 None [0; 1; 2; 3; 255])
                (png_file_chunks 1 1 8 6 None [0; 1; 2; 3; 255])
                1 1 [0; 1; 2; 3; 255] [1; 2; 3; 255]
                eq_refl eq_refl eq_refl eq_refl eq_refl eq_refl eq_refl
                eq_refl)
      as (b & Hpng & _ & _ & Hfalse).
    by rewrite Hpng, (Hfalse 1 2 3).
Defined.

(** ** Errors *)

(** C5, as the code has it.  For an asset whose pixels are decoded (bit
    depth 8, colour type 6 or 3), a decompressed stream that does not have
    exactly [height * (1 + row_length)] bytes makes [png_has_transparency]
    raise the "unexpected decompressed size" error; so it does when the
    stream is one byte short. *)
Theorem C5_decompressed_size_mismatch (inflate : list Z → option (list Z))
    (data : list Z) (st : chunks) (w h : nat) (ct : Z) (raw : list Z) :
  read_chunks data = Ok st →
  width st = Some w → height st = Some h →
  bit_depth st = Some 8 → color_type st = Some ct →
  ct = 6 ∨ ct = 3 →
  inflate (idat st) = Some raw →
  length raw ≠ (h * (1 + w * bpp_of ct))%nat →
  png_has_transparency inflate data
  = Raise (ValueError UnexpectedDecompressedSize).
Proof.
  intros Hread Hw Hh Hbd Hct Hpix Hraw Hlen.
  rewrite (png_interpret _ _ _ Hread).
  rewrite (interpret_pixels inflate st w h 8 ct) by done.
  by apply (decode_pixels_size inflate st w h ct _ raw).
Qed.

Lemma C5_witness :
  S (length [0; 1; 2; 3]) = (1 * (1 + 1 * bpp_of 6))%nat ∧
  png_has_transparency inflate_stored (png_file 1 1 8 6 None [0; 1; 2; 3])
  = Raise (ValueError UnexpectedDecompressedSize).
Proof.
  split; [reflexivity|].
  apply (C5_decompressed_size_mismatch inflate_stored
           (png_file 1 1 8 6 None [0; 1; 2; 3])
           (png_file_chunks 1 1 8 6 None [0; 1; 2; 3]) 1 1 6 [0; 1; 2; 3]
           eq_refl eq_refl eq_refl eq_refl eq_refl (or_introl eq_refl)
           eq_refl).
  simpl. lia.
Defined.

(** C5 as stated fails: for colour type 2 the data chunks are never
    decompressed, so a stream that is one byte short of the three bytes
    per pixel of that colour type, or that is empty and so too short for
    any number of bytes per pixel, is tolerated and the answer is False. *)
Lemma C5_counterexample :
  png_has_transparency inflate_stored (png_file 1 1 8 2 None [0; 1; 2])
  = Ok false ∧
  inflate_stored (stored [0; 1; 2]) = Some [0; 1; 2] ∧
  S (length [0; 1; 2]) = (1 * (1 + 1 * 3))%nat ∧
  png_has_transparency inflate_stored (png_file 1 1 8 2 None []) = Ok false ∧
  inflate_stored (stored []) = Some [] ∧
  ∀ bpp : nat, length (@nil Z) ≠ (1 * (1 + 1 * bpp))%nat.
Proof. split_and!; by vm_compute. Qed.

(** C7, as the code has it.  For a header whose colour type is none of
    the five values 0, 2, 3, 4, 6, [png_has_transparency] raises the
    "unsupported color type" error naming the value when the bit depth is
    8, and the "unsupported bit depth" error otherwise. *)
Theorem C7_unsupported_color_type (inflate : list Z → option (list Z))
    (data : list Z) (st : chunks) (w h : nat) (bd ct : Z) :
  read_chunks data = Ok st →
  width st = Some w → height st = Some h →
  bit_depth st = Some bd → color_type st = Some ct →
  ct ∉ [0; 2; 3; 4; 6] →
  png_has_transparency inflate data
  = Raise (ValueError (if decide (bd = 8) then UnsupportedColorType ct
                       else UnsupportedBitDepth bd)).
Proof.
  intros Hread Hw Hh Hbd Hct Hnot.
  rewrite (png_interpret _ _ _ Hread). case_decide.
  - by apply (interpret_color_type inflate st w h bd ct).
  - by apply (interpret_bit_depth inflate st w h bd ct).
Qed.

Lemma C7_witness :
  png_has_transparency inflate_stored (png_file 1 1 8 7 None [0; 1])
  = Raise (ValueError (UnsupportedColorType 7)) ∧
  png_has_transparency inflate_stored (png_file 1 1 16 7 None [0; 1])
  = Raise (ValueError (UnsupportedBitDepth 16)).
Proof.
  assert (7 ∉ [0; 2; 3; 4; 6]) as Hnot
    by (rewrite !elem_of_cons, elem_of_nil; lia).
  split.
  - exact (C7_unsupported_color_type inflate_stored
             (png_file 1 1 8 7 None [0; 1])
             (png_file_chunks 1 1 8 7 None [0; 1]) 1 1 8 7
             eq_refl eq_refl eq_refl eq_refl eq_refl Hnot).
  - exact (C7_unsupported_color_type inflate_stored
             (png_file 1 1 16 7 None [0; 1])
             (png_file_chunks 1 1 16 7 None [0; 1]) 1 1 16 7
             eq_refl eq_refl eq_refl eq_refl eq_refl Hnot).
Defined.

(** C7 as stated fails: a header of bit depth 16 with the unrecognized
    colour type 7 is rejected for its bit depth, not for its colour type;
    and the colour types the decoder accepts at bit depth 8 are five, not
    four. *)
Lemma C7_counterexample :
  png_has_transparency inflate_stored (png_file 1 1 16 7 None [0; 1])
  = Raise (ValueError (UnsupportedBitDepth 16)) ∧
  png_has_transparency inflate_stored (png_file 1 1 8 0 None [0; 1])
  = Ok false ∧
  png_has_transparency inflate_stored (png_file 1 1 8 2 None [0; 1; 2; 3])
  = Ok false ∧
  png_has_transparency inflate_stored (png_file 1 1 8 3 None [0; 1])
  = Ok false ∧
  png_has_transparency inflate_stored (png_file 1 1 8 4 None [0; 1; 2])
  = Ok false ∧
  png_has_transparency inflate_stored (png_file 1 1 8 6 None [0; 1; 2; 3; 4])
  = Ok true.
Proof. by vm_compute. Qed.

(** C8.  For a header of bit depth 8 and colour type 0, 2 or 4,
    [png_has_transparency] returns false whatever [zlib.decompress] would
    do with the data chunks: they are neither decompressed nor
    reconstructed. *)
Theorem C8_no_alpha_models_skip_the_pixels
    (inflate : list Z → option (list Z))
    (data : list Z) (st : chunks) (w h : nat) (ct : Z) :
  read_chunks data = Ok st →
  width st = Some w → height st = Some h →
  bit_depth st = Some 8 → color_type st = Some ct →
  ct ∈ [0; 2; 4] →
  png_has_transparency inflate data = Ok false.
Proof.
  intros Hread Hw Hh Hbd Hct Hin.
  rewrite (png_interpret _ _ _ Hread).
  by apply (interpret_no_alpha inflate st w h 8 ct).
Qed.

Lemma C8_witness :
  png_has_transparency (λ _, None)
    (PNG_SIGNATURE
       ++ chunks_bytes [mk_chunk IHDR (ihdr_data 1 1 8 2);
                        mk_chunk IDAT [1; 2; 3]; mk_chunk IEND []])
  = Ok false.
Proof.
  apply (C8_no_alpha_models_skip_the_pixels (λ _, None)
           (PNG_SIGNATURE
              ++ chunks_bytes [mk_chunk IHDR (ihdr_data 1 1 8 2);
                               mk_chunk IDAT [1; 2; 3]; mk_chunk IEND []])
           {| width := Some 1%nat; height := Some 1%nat;
              bit_depth := Some 8; color_type := Some 2;
              trns_chunk := None; idat := [1; 2; 3] |} 1 1 2
           eq_refl eq_refl eq_refl eq_refl eq_refl).
  rewrite !elem_of_cons. lia.
Defined.

(** C9, as the code has it.  When the chunk loop, past the signature and
    any number of complete chunks it gets through, meets a non-empty rest
    shorter than a chunk header, or shorter than the declared length plus
    header and checksum, [png_has_transparency] raises a truncation
    [ValueError]; its message gives the path and says whether the chunk
    header or the chunk length is at fault. *)
Theorem C9_truncated_container (inflate : list Z → option (list Z))
    (cs : list chunk) (st : chunks) (tail : list Z) (path : string) :
  Forall complete cs →
  Forall (λ c, chunk_type c ≠ IEND) cs →
  absorb_all no_chunks cs = Ok st →
  truncated tail →
  png_has_transparency inflate (PNG_SIGNATURE ++ chunks_bytes cs ++ tail)
  = Raise (ValueError (truncation_error tail)) ∧
  message path (truncation_error tail)
  = (path +:+ (if decide (length tail < 8)%nat
               then " is truncated (invalid chunk header)"
               else " is truncated (invalid chunk length)"))%string.
Proof.
  intros Hcomplete Hty Habsorb Htail. split.
  - unfold png_has_transparency.
    rewrite read_chunks_prefix, Habsorb by done. cbn [bind].
    rewrite chunk_loop_unfold by lia.
    rewrite decide_True
      by (destruct Htail; rewrite !length_app; simpl; lia).
    rewrite app_assoc.
    replace (8 + length (chunks_bytes cs))%nat
      with (length (PNG_SIGNATURE ++ chunks_bytes cs))
      by (by rewrite length_app).
    by rewrite chunk_body_truncated.
  - unfold truncation_error, message. by case_decide.
Qed.

Lemma C9_witness :
  png_has_transparency inflate_stored
    (PNG_SIGNATURE
       ++ chunks_bytes [mk_chunk IHDR (ihdr_data 1 1 8 6)]
       ++ [0; 0; 0; 5] ++ IDAT ++ [1; 2])
  = Raise (ValueError TruncatedChunkLength).
Proof.
  refine (proj1 (C9_truncated_container inflate_stored
                   [mk_chunk IHDR (ihdr_data 1 1 8 6)]
                   (set_IHDR no_chunks (1%nat, 1%nat, 8, 6))
                   ([0; 0; 0; 5] ++ IDAT ++ [1; 2]) "" _ _ eq_refl _)).
  - repeat constructor.
  - by repeat constructor.
  - split; [simpl; lia|]. right. exists 5. split; [reflexivity|simpl; lia].
Defined.

(** C9 as stated fails: the truncation error of a file broken off inside
    an [IDAT] chunk does not name the chunk type. *)
Lemma C9_counterexample :
  png_has_transparency inflate_stored
    (PNG_SIGNATURE ++ [0; 0; 0; 5] ++ IDAT ++ [1; 2])
  = Raise (ValueError TruncatedChunkLength) ∧
  message "src-tauri/icons/32x32.png" TruncatedChunkLength
  = "src-tauri/icons/32x32.png is truncated (invalid chunk length)"%string ∧
  contains (text_of IDAT)
    (message "src-tauri/icons/32x32.png" TruncatedChunkLength) = false.
Proof. by vm_compute. Qed.

(** C10, as the code has it.  When no [IHDR] chunk is read before the end
    of the file or the [IEND] chunk, [png_has_transparency] raises the
    "missing IHDR" error; when an [IHDR] chunk is read whose data is not
    13 bytes long, [struct.unpack] raises its own error instead. *)
Theorem C10_missing_or_missized_header (inflate : list Z → option (list Z))
    (cs : list chunk) :
  Forall complete cs →
  Forall (λ c, chunk_type c ≠ IEND) cs →
  (Forall (λ c, chunk_type c ≠ IHDR) cs →
   ∀ tail,
     tail = [] ∨
     (∃ c rest, complete c ∧ chunk_type c = IEND ∧
                tail = chunk_bytes c ++ rest) →
     png_has_transparency inflate (PNG_SIGNATURE ++ chunks_bytes cs ++ tail)
     = Raise (ValueError MissingIHDR)) ∧
  (∀ st c rest,
     absorb_all no_chunks cs = Ok st →
     complete c → chunk_type c = IHDR →
     length (chunk_data c) ≠ 13%nat →
     png_has_transparency inflate
       (PNG_SIGNATURE ++ chunks_bytes cs ++ chunk_bytes c ++ rest)
     = Raise StructError).
Proof.
  intros Hcomplete Hty. split.
  - intros Hno tail Htail. unfold png_has_transparency.
    rewrite read_chunks_prefix by done.
    destruct (absorb_all_other cs Hno no_chunks) as (st & -> & Hw).
    cbn [bind]. rewrite chunk_loop_unfold by lia.
    destruct Htail as [-> | (c & rest & Hc & Hc' & ->)].
    + rewrite decide_False by (rewrite !length_app; simpl; lia).
      cbn [bind]. by apply interpret_missing.
    + pose proof (length_chunk_bytes c Hc).
      rewrite decide_True by (rewrite !length_app; simpl; lia).
      rewrite app_assoc.
      replace (8 + length (chunks_bytes cs))%nat
        with (length (PNG_SIGNATURE ++ chunks_bytes cs))
        by (by rewrite length_app).
      rewrite chunk_body_IEND by done. cbn [bind].
      by apply interpret_missing.
  - intros st c rest Habsorb Hc Hc' Hlen. unfold png_has_transparency.
    rewrite read_chunks_prefix, Habsorb by done. cbn [bind].
    pose proof (length_chunk_bytes c Hc).
    rewrite chunk_loop_unfold by lia.
    rewrite decide_True by (rewrite !length_app; simpl; lia).
    rewrite app_assoc.
    replace (8 + length (chunks_bytes cs))%nat
      with (length (PNG_SIGNATURE ++ chunks_bytes cs))
      by (by rewrite length_app).
    rewrite chunk_body_absorb by (done || by rewrite Hc').
    unfold absorb. rewrite decide_True by done.
    by rewrite unpack_IHDR_wrong_size.
Qed.

Lemma C10_witness :
  png_has_transparency inflate_stored
    (PNG_SIGNATURE
       ++ chunks_bytes [mk_chunk tRNS [0]]
       ++ chunk_bytes (mk_chunk IEND []) ++ [])
  = Raise (ValueError MissingIHDR) ∧
  png_has_transparency inflate_stored
    (PNG_SIGNATURE
       ++ chunks_bytes [mk_chunk tRNS [0]]
       ++ chunk_bytes (mk_chunk IHDR [0; 0; 0; 1; 0; 0; 0; 1; 8; 6; 0; 0])
       ++ chunk_bytes (mk_chunk IEND []))
  = Raise StructError.
Proof.
  destruct (C10_missing_or_missized_header inflate_stored
              [mk_chunk tRNS [0]]) as [Habsent Hsize].
  - by repeat constructor.
  - by repeat constructor.
  - split.
    + apply Habsent; [by repeat constructor|]. right.
      exists (mk_chunk IEND []), []. by repeat split.
    + apply (Hsize (set_tRNS no_chunks [0])); [done| |done|simpl; lia].
      by repeat split.
Defined.

(** C10 as stated fails: an [IHDR] chunk of 12 bytes makes the decoder
    fail with the error of [struct.unpack], not with "missing IHDR". *)
Lemma C10_counterexample :
  png_has_transparency inflate_stored
    (PNG_SIGNATURE
       ++ chunks_bytes [mk_chunk IHDR [0; 0; 0; 1; 0; 0; 0; 1; 8; 6; 0; 0];
                        mk_chunk IEND []])
  = Raise StructError ∧
  png_has_transparency inflate_stored
    (PNG_SIGNATURE
       ++ chunks_bytes [mk_chunk IHDR [0; 0; 0; 1; 0; 0; 0; 1; 8; 6; 0; 0];
                        mk_chunk IEND []])
  ≠ Raise (ValueError MissingIHDR).
Proof. split; [by vm_compute|]. vm_compute. discriminate. Qed.

(** * Further properties of the decoder *)

(** ** The predictor and the filters *)

(** X9.  [_paeth a b c] returns one of its three arguments, and none of
    them is closer to [a + b - c] than the one returned. *)
Theorem X9_paeth_nearest (a b c : Z) :
  let r := _paeth a b c in
  (r = a ∨ r = b ∨ r = c) ∧
  ∀ v, v = a ∨ v = b ∨ v = c →
       Z.abs (a + b - c - r) ≤ Z.abs (a + b - c - v).
Proof.
  unfold _paeth. simpl.
  destruct (Z.leb_spec (Z.abs (a + b - c - a)) (Z.abs (a + b - c - b)));
    destruct (Z.leb_spec (Z.abs (a + b - c - a)) (Z.abs (a + b - c - c)));
    destruct (Z.leb_spec (Z.abs (a + b - c - b)) (Z.abs (a + b - c - c)));
    simpl; (split; [tauto|]); intros v [-> | [-> | ->]]; lia.
Qed.

Lemma inverse_byte (filter_type f left up up_left : Z) :
  is_byte f → is_byte (Spec.inverse filter_type f left up up_left).
Proof.
  intros Hf. unfold Spec.inverse, is_byte.
  repeat case_decide; try done; by apply Z.mod_pos_bound.
Qed.

Lemma row_bytes (filter_type : Z) (bpp : nat) (prev : list Z) :
  ∀ filtered acc,
    Forall is_byte acc → Forall is_byte filtered →
    Forall is_byte (Spec.row filter_type bpp prev acc filtered).
Proof.
  induction filtered as [|f filtered IH]; intros acc Hacc Hf; simpl; [done|].
  apply Forall_cons in Hf as [Hf Hrest]. apply IH; [|done].
  apply Forall_app. split; [done|].
  apply Forall_singleton. by apply inverse_byte.
Qed.

Lemma rows_bytes (bpp row_len : nat) :
  ∀ n stream prev,
    Forall is_byte stream →
    Forall is_byte (Spec.rows bpp row_len prev n stream).
Proof.
  induction n as [|n IH]; intros stream prev Hs; simpl; [done|].
  destruct stream as [|ft rest]; [done|].
  apply Forall_cons in Hs as [_ Hrest]. apply Forall_app. split.
  - apply row_bytes; [done|]. by apply Forall_take.
  - apply IH. by apply Forall_drop.
Qed.

Lemma reconstruct_Ok (bpp width height : nat) (raw out : list Z) :
  (0 < bpp)%nat →
  length raw = (height * (1 + width * bpp))%nat →
  reconstruct bpp width height raw = Ok out →
  out = Spec.raster bpp width height raw.
Proof.
  intros Hbpp Hlen. rewrite reconstruct_cases by done.
  destruct (first_bad_filter _ _ _); [done|]. by intros [= <-].
Qed.

(** X7.  The raster reconstructed from a stream of bytes holds bytes: every
    value stored into [out] lies in 0..255. *)
Theorem X7_raster_holds_bytes (bpp width height : nat) (raw out : list Z) :
  (0 < bpp)%nat →
  length raw = (height * (1 + width * bpp))%nat →
  Forall is_byte raw →
  reconstruct bpp width height raw = Ok out →
  Forall is_byte out.
Proof.
  intros Hbpp Hlen Hraw Hout.
  rewrite (reconstruct_Ok bpp width height raw out Hbpp Hlen Hout).
  by apply rows_bytes.
Qed.

Lemma X7_witness : Forall is_byte [10; 25; 42; 4; 20; 49].
Proof.
  apply (X7_raster_holds_bytes 1 3 2 [3; 10; 20; 30; 4; 250; 251; 7]
           [10; 25; 42; 4; 20; 49] ltac:(lia) eq_refl).
  - repeat constructor; unfold is_byte; lia.
  - reflexivity.
Defined.

Lemma row_filter_none (bpp : nat) (prev : list Z) :
  ∀ filtered acc, Spec.row 0 bpp prev acc filtered = acc ++ filtered.
Proof.
  induction filtered as [|f filtered IH]; intros acc; simpl.
  - by rewrite app_nil_r.
  - by rewrite IH, <- app_assoc.
Qed.

Lemma rows_unfiltered (bpp row_len : nat) :
  ∀ n stream prev,
    (∀ y ft, (y < n)%nat → stream !! (y * (1 + row_len))%nat = Some ft →
             ft = 0) →
    Spec.rows bpp row_len prev n stream = payload_rows row_len n stream.
Proof.
  induction n as [|n IH]; intros stream prev Hft; simpl; [done|].
  destruct stream as [|ft rest]; [done|].
  assert (ft = 0) as -> by (apply (Hft 0%nat); [lia|done]).
  rewrite row_filter_none. simpl. f_equal. apply IH.
  intros y ft' Hy Hl. apply (Hft (S y) ft'); [lia|].
  rewrite lookup_drop in Hl. simpl. rewrite <- Hl. f_equal; lia.
Qed.

(** X8.  When every row has filter type 0, the raster is the stream with
    the filter-type bytes taken out, byte for byte. *)
Theorem X8_filter_none_is_identity (bpp width height : nat) (raw : list Z) :
  (0 < bpp)%nat →
  length raw = (height * (1 + width * bpp))%nat →
  (∀ y, (y < height)%nat → raw !! (y * (1 + width * bpp))%nat = Some 0) →
  reconstruct bpp width height raw
  = Ok (payload_rows (width * bpp) height raw).
Proof.
  intros Hbpp Hlen Hft. rewrite reconstruct_cases by done.
  assert (∀ y ft, (y < height)%nat →
                  raw !! (y * (1 + width * bpp))%nat = Some ft → ft = 0)
    as Hzero.
  { intros y ft Hy Hl. specialize (Hft y Hy). congruence. }
  assert (first_bad_filter (width * bpp) height raw = None) as ->.
  { apply first_bad_filter_None. intros y ft Hy Hl.
    rewrite (Hzero y ft Hy Hl). lia. }
  unfold Spec.raster. by rewrite rows_unfiltered.
Qed.

Lemma X8_witness :
  reconstruct 4 1 2 [0; 1; 2; 3; 4; 0; 5; 6; 7; 8]
  = Ok [1; 2; 3; 4; 5; 6; 7; 8].
Proof.
  apply (X8_filter_none_is_identity 4 1 2 [0; 1; 2; 3; 4; 0; 5; 6; 7; 8]
           ltac:(lia) eq_refl).
  intros [|[|y]] Hy; [reflexivity|reflexivity|lia].
Defined.

Lemma row_first_paeth_is_sub (bpp n : nat) :
  ∀ filtered acc,
    Spec.row 4 bpp (replicate n 0) acc filtered
    = Spec.row 1 bpp (replicate n 0) acc filtered.
Proof.
  induction filtered as [|f filtered IH]; intros acc; simpl; [done|].
  rewrite IH. do 3 f_equal. unfold Spec.value.
  rewrite !byte_at_replicate. unfold Spec.inverse.
  rewrite !decide_False by done. rewrite !decide_True by done.
  case_decide; do 2 f_equal; unfold Spec.paeth; simpl;
    repeat case_decide; lia.
Qed.

Lemma row_first_up_is_none (bpp n : nat) :
  ∀ filtered acc,
    Forall is_byte filtered →
    Spec.row 2 bpp (replicate n 0) acc filtered
    = Spec.row 0 bpp (replicate n 0) acc filtered.
Proof.
  induction filtered as [|f filtered IH]; intros acc Hf; simpl; [done|].
  apply Forall_cons in Hf as [Hf Hrest].
  rewrite IH by done. do 3 f_equal. unfold Spec.value.
  rewrite !byte_at_replicate. unfold Spec.inverse.
  rewrite !decide_False by done. rewrite decide_True by done.
  rewrite Z.add_0_r. apply Z.mod_small. exact Hf.
Qed.

(** X10.  In the first row the previous row is all zero, so a Paeth row
    decodes exactly as a Sub row, and an Up row of bytes exactly as an
    unfiltered row: changing the first filter-type byte from 4 to 1, or
    from 2 to 0, does not change the raster. *)
Theorem X10_first_row_filters (bpp width height : nat) (rest : list Z) :
  (0 < bpp)%nat →
  length (4 :: rest) = (height * (1 + width * bpp))%nat →
  reconstruct bpp width height (4 :: rest)
  = reconstruct bpp width height (1 :: rest) ∧
  (Forall is_byte rest →
   reconstruct bpp width height (2 :: rest)
   = reconstruct bpp width height (0 :: rest)).
Proof.
  intros Hbpp Hlen.
  rewrite !reconstruct_cases by done. unfold Spec.raster.
  destruct height as [|height]; [done|]. simpl. split.
  - by rewrite row_first_paeth_is_sub.
  - intros Hrest. by rewrite row_first_up_is_none by by apply Forall_take.
Qed.

Lemma X10_witness :
  reconstruct 1 3 1 [4; 10; 20; 30] = reconstruct 1 3 1 [1; 10; 20; 30] ∧
  reconstruct 1 3 1 [2; 10; 20; 30] = reconstruct 1 3 1 [0; 10; 20; 30].
Proof.
  destruct (X10_first_row_filters 1 3 1 [10; 20; 30] ltac:(lia) eq_refl)
    as [Hpaeth Hup].
  split; [exact Hpaeth|]. apply Hup.
  repeat constructor; unfold is_byte; lia.
Defined.

(** ** The chunk loop on well-formed files *)

Lemma read_chunks_ends (cs : list chunk) (tail : list Z) :
  Forall complete cs →
  Forall (λ c, chunk_type c ≠ IEND) cs →
  ends_reading tail →
  read_chunks (PNG_SIGNATURE ++ chunks_bytes cs ++ tail)
  = absorb_all no_chunks cs.
Proof.
  intros Hcomplete Hty Htail. rewrite read_chunks_prefix by done.
  destruct (absorb_all no_chunks cs) as [st|e]; cbn [bind]; [|done].
  rewrite chunk_loop_unfold by lia.
  destruct Htail as [-> | (c & rest & Hc & Hc' & ->)].
  - by rewrite decide_False by (rewrite !length_app; simpl; lia).
  - pose proof (length_chunk_bytes c Hc).
    rewrite decide_True by (rewrite !length_app; simpl; lia).
    rewrite app_assoc.
    replace (8 + length (chunks_bytes cs))%nat
      with (length (PNG_SIGNATURE ++ chunks_bytes cs))
      by (by rewrite length_app).
    by rewrite chunk_body_IEND.
Qed.

(** X3.  The [IEND] chunk ends the reading: whatever follows it is never
    looked at, and a file that stops after its last complete chunk,
    without [IEND], gets the same result. *)
Theorem X3_IEND_ends_reading (inflate : list Z → option (list Z))
    (cs : list chunk) (iend : chunk) (rest : list Z) :
  Forall complete cs →
  Forall (λ c, chunk_type c ≠ IEND) cs →
  complete iend → chunk_type iend = IEND →
  png_has_transparency inflate
    (PNG_SIGNATURE ++ chunks_bytes cs ++ chunk_bytes iend ++ rest)
  = png_has_transparency inflate (PNG_SIGNATURE ++ chunks_bytes cs).
Proof.
  intros Hcomplete Hty Hc Hc'. unfold png_has_transparency.
  rewrite read_chunks_ends by (done || right; eauto).
  rewrite <- (app_nil_r (chunks_bytes cs)).
  by rewrite read_chunks_ends by (done || by left).
Qed.

Lemma X3_witness :
  png_has_transparency inflate_stored
    (PNG_SIGNATURE
       ++ chunks_bytes [mk_chunk IHDR (ihdr_data 1 1 8 6);
                        mk_chunk IDAT (stored [0; 1; 2; 3; 254])]
       ++ chunk_bytes (mk_chunk IEND []) ++ [0; 0; 0; 99; 1])
  = png_has_transparency inflate_stored
      (PNG_SIGNATURE
         ++ chunks_bytes [mk_chunk IHDR (ihdr_data 1 1 8 6);
                          mk_chunk IDAT (stored [0; 1; 2; 3; 254])]).
Proof.
  apply (X3_IEND_ends_reading inflate_stored
           [mk_chunk IHDR (ihdr_data 1 1 8 6);
            mk_chunk IDAT (stored [0; 1; 2; 3; 254])]
           (mk_chunk IEND []) [0; 0; 0; 99; 1]).
  - by repeat constructor.
  - by repeat constructor.
  - by repeat split.
  - reflexivity.
Defined.

Lemma absorb_cases (st st' : chunks) (c : chunk) :
  absorb st c = Ok st' →
  (chunk_type c = IHDR ∧
   ∃ f, unpack_IHDR (chunk_data c) = Ok f ∧ st' = set_IHDR st f) ∨
  (chunk_type c = tRNS ∧ st' = set_tRNS st (chunk_data c)) ∨
  (chunk_type c = IDAT ∧ st' = extend_IDAT st (chunk_data c)) ∨
  (¬ relevant c ∧ st' = st).
Proof.
  unfold absorb, relevant. repeat case_decide.
  - destruct (unpack_IHDR _) as [f|]; cbn [bind]; [|done].
    intros [= <-]. left. eauto.
  - intros [= <-]. auto.
  - intros [= <-]. auto.
  - intros [= <-]. do 3 right. split; [tauto|done].
Qed.

Lemma absorb_all_idat (cs : list chunk) :
  ∀ st0 st,
    absorb_all st0 cs = Ok st →
    idat st
    = idat st0 ++ concat (chunk_data <$> filter (λ c, chunk_type c = IDAT) cs).
Proof.
  induction cs as [|c cs IH]; intros st0 st; simpl.
  - intros [= <-]. by rewrite app_nil_r.
  - destruct (absorb st0 c) as [st1|] eqn:E; cbn [bind]; [|done].
    intros Hst. rewrite (IH st1 st Hst). rewrite filter_cons.
    apply absorb_cases in E
      as [(Hty & f & _ & ->) | [(Hty & ->) | [(Hty & ->) | (Hty & ->)]]].
    + rewrite decide_False by (by rewrite Hty).
      by destruct f as [[[? ?] ?] ?].
    + by rewrite decide_False by (by rewrite Hty).
    + rewrite decide_True by done. simpl. by rewrite <- app_assoc.
    + rewrite decide_False; [done|]. unfold relevant in Hty. tauto.
Qed.

Lemma absorb_all_trns (cs : list chunk) :
  ∀ st0 st,
    absorb_all st0 cs = Ok st →
    trns_chunk st
    = match last (filter (λ c, chunk_type c = tRNS) cs) with
      | Some c => Some (chunk_data c)
      | None => trns_chunk st0
      end.
Proof.
  induction cs as [|c cs IH]; intros st0 st; simpl.
  - by intros [= <-].
  - destruct (absorb st0 c) as [st1|] eqn:E; cbn [bind]; [|done].
    intros Hst. rewrite (IH st1 st Hst). rewrite filter_cons.
    apply absorb_cases in E
      as [(Hty & f & _ & ->) | [(Hty & ->) | [(Hty & ->) | (Hty & ->)]]].
    + rewrite decide_False by (by rewrite Hty).
      by destruct f as [[[? ?] ?] ?].
    + rewrite decide_True by done. rewrite last_cons.
      by destruct (last _).
    + by rewrite decide_False by (by rewrite Hty).
    + rewrite decide_False; [done|]. unfold relevant in Hty. tauto.
Qed.

Lemma absorb_all_header (cs : list chunk) :
  ∀ st0 st,
    absorb_all st0 cs = Ok st →
    match last (filter (λ c, chunk_type c = IHDR) cs) with
    | Some c =>
        ∃ w h bd ct,
          unpack_IHDR (chunk_data c) = Ok (w, h, bd, ct) ∧
          width st = Some w ∧ height st = Some h ∧
          bit_depth st = Some bd ∧ color_type st = Some ct
    | None =>
        width st = width st0 ∧ height st = height st0 ∧
        bit_depth st = bit_depth st0 ∧ color_type st = color_type st0
    end.
Proof.
  induction cs as [|c cs IH]; intros st0 st; simpl.
  - by intros [= <-].
  - destruct (absorb st0 c) as [st1|] eqn:E; cbn [bind]; [|done].
    intros Hst. specialize (IH st1 st Hst). rewrite filter_cons.
    apply absorb_cases in E
      as [(Hty & f & Hf & ->) | [(Hty & ->) | [(Hty & ->) | (Hty & ->)]]].
    + rewrite decide_True by done. rewrite last_cons.
      destruct (last _); [done|].
      destruct f as [[[w h] bd] ct]. exists w, h, bd, ct.
      by destruct IH as (-> & -> & -> & ->).
    + by rewrite decide_False by (by rewrite Hty).
    + by rewrite decide_False by (by rewrite Hty).
    + rewrite decide_False; [done|]. unfold relevant in Hty. tauto.
Qed.

(** X4.  The stream handed to [zlib.decompress] is the concatenation, in
    file order, of the data of all [IDAT] chunks read; chunks of other
    types in between do not interrupt it. *)
Theorem X4_IDAT_data_concatenated (cs : list chunk) (tail : list Z)
    (st : chunks) :
  Forall complete cs →
  Forall (λ c, chunk_type c ≠ IEND) cs →
  ends_reading tail →
  read_chunks (PNG_SIGNATURE ++ chunks_bytes cs ++ tail) = Ok st →
  idat st = concat (chunk_data <$> filter (λ c, chunk_type c = IDAT) cs).
Proof.
  intros Hcomplete Hty Htail. rewrite read_chunks_ends by done.
  intros Hst. by rewrite (absorb_all_idat cs no_chunks st Hst).
Qed.

Lemma X4_witness :
  read_chunks
    (PNG_SIGNATURE
       ++ chunks_bytes [mk_chunk IDAT [1; 2]; mk_chunk IHDR (ihdr_data 1 1 8 3);
                        mk_chunk tRNS [7]; mk_chunk IDAT [4]]
       ++ [])
  = Ok {| width := Some 1%nat; height := Some 1%nat; bit_depth := Some 8;
          color_type := Some 3; trns_chunk := Some [7]; idat := [1; 2; 4] |} ∧
  [1; 2; 4] = [1; 2] ++ [4] ++ [].
Proof.
  split; [reflexivity|].
  refine (X4_IDAT_data_concatenated
            [mk_chunk IDAT [1; 2]; mk_chunk IHDR (ihdr_data 1 1 8 3);
             mk_chunk tRNS [7]; mk_chunk IDAT [4]] []
            {| width := Some 1%nat; height := Some 1%nat;
               bit_depth := Some 8; color_type := Some 3;
               trns_chunk := Some [7]; idat := [1; 2; 4] |}
            _ _ _ eq_refl).
  - by repeat constructor.
  - by repeat constructor.
  - by left.
Defined.

(** X5.  Of several [tRNS] chunks the last one read is the table used, and
    of several [IHDR] chunks the last one gives width, height, bit depth
    and colour type; the header need not be the first chunk. *)
Theorem X5_last_tRNS_and_IHDR_count (cs : list chunk) (tail : list Z)
    (st : chunks) :
  Forall complete cs →
  Forall (λ c, chunk_type c ≠ IEND) cs →
  ends_reading tail →
  read_chunks (PNG_SIGNATURE ++ chunks_bytes cs ++ tail) = Ok st →
  trns_chunk st
  = chunk_data <$> last (filter (λ c, chunk_type c = tRNS) cs) ∧
  match last (filter (λ c, chunk_type c = IHDR) cs) with
  | Some c =>
      ∃ w h bd ct,
        unpack_IHDR (chunk_data c) = Ok (w, h, bd, ct) ∧
        width st = Some w ∧ height st = Some h ∧
        bit_depth st = Some bd ∧ color_type st = Some ct
  | None =>
      width st = None ∧ height st = None ∧
      bit_depth st = None ∧ color_type st = None
  end.
Proof.
  intros Hcomplete Hty Htail. rewrite read_chunks_ends by done.
  intros Hst. split.
  - rewrite (absorb_all_trns cs no_chunks st Hst). by destruct (last _).
  - exact (absorb_all_header cs no_chunks st Hst).
Qed.

Lemma X5_witness :
  read_chunks
    (PNG_SIGNATURE
       ++ chunks_bytes [mk_chunk tRNS [0]; mk_chunk IHDR (ihdr_data 9 9 8 6);
                        mk_chunk tRNS [255]; mk_chunk IHDR (ihdr_data 1 1 8 3)]
       ++ [])
  = Ok {| width := Some 1%nat; height := Some 1%nat; bit_depth := Some 8;
          color_type := Some 3; trns_chunk := Some [255]; idat := [] |} ∧
  Some [255] = Some [255].
Proof.
  split; [reflexivity|].
  refine (proj1 (X5_last_tRNS_and_IHDR_count
                   [mk_chunk tRNS [0]; mk_chunk IHDR (ihdr_data 9 9 8 6);
                    mk_chunk tRNS [255]; mk_chunk IHDR (ihdr_data 1 1 8 3)]
                   []
                   {| width := Some 1%nat; height := Some 1%nat;
                      bit_depth := Some 8; color_type := Some 3;
                      trns_chunk := Some [255]; idat := [] |}
                   _ _ _ eq_refl)).
  - by repeat constructor.
  - by repeat constructor.
  - by left.
Defined.

Lemma absorb_all_essence (cs : list chunk) :
  ∀ st, absorb_all st cs = absorb_essence st (essence cs).
Proof.
  unfold essence. induction cs as [|c cs IH]; intros st; simpl; [done|].
  rewrite filter_cons. destruct (decide (relevant c)) as [Hc|Hc].
  - simpl. change (absorb st (mk_chunk (chunk_type c) (chunk_data c)))
      with (absorb st c).
    destruct (absorb st c); cbn [bind]; [apply IH|done].
  - assert (absorb st c = Ok st) as ->.
    { unfold absorb, relevant in *. repeat case_decide; tauto || done. }
    cbn [bind]. apply IH.
Qed.

(** X6.  The checksum bytes of a chunk are never looked at, and chunks of
    any type other than [IHDR], [tRNS], [IDAT] and [IEND] are passed over:
    two files whose [IHDR], [tRNS] and [IDAT] chunks carry the same data in
    the same order get the same result. *)
Theorem X6_crc_and_other_chunks_ignored (inflate : list Z → option (list Z))
    (cs cs' : list chunk) (tail tail' : list Z) :
  Forall complete cs → Forall (λ c, chunk_type c ≠ IEND) cs →
  Forall complete cs' → Forall (λ c, chunk_type c ≠ IEND) cs' →
  ends_reading tail → ends_reading tail' →
  essence cs = essence cs' →
  png_has_transparency inflate (PNG_SIGNATURE ++ chunks_bytes cs ++ tail)
  = png_has_transparency inflate (PNG_SIGNATURE ++ chunks_bytes cs' ++ tail').
Proof.
  intros Hc Hty Hc' Hty' Htail Htail' Hess. unfold png_has_transparency.
  rewrite !read_chunks_ends by done.
  by rewrite !absorb_all_essence, Hess.
Qed.

Lemma X6_witness :
  png_has_transparency inflate_stored
    (PNG_SIGNATURE
       ++ chunks_bytes [mk_chunk IHDR (ihdr_data 1 1 8 6);
                        mk_chunk IDAT (stored [0; 1; 2; 3; 254])]
       ++ [])
  = png_has_transparency inflate_stored
      (PNG_SIGNATURE
         ++ chunks_bytes
              [{| chunk_type := IHDR; chunk_data := ihdr_data 1 1 8 6;
                  chunk_crc := [1; 2; 3; 4] |};
               mk_chunk [116; 69; 88; 116] [104; 105];
               mk_chunk IDAT (stored [0; 1; 2; 3; 254])]
         ++ chunk_bytes (mk_chunk IEND []) ++ [9]).
Proof.
  apply (X6_crc_and_other_chunks_ignored inflate_stored).
  - by repeat constructor.
  - by repeat constructor.
  - by repeat constructor.
  - by repeat constructor.
  - by left.
  - right. exists (mk_chunk IEND []), [9]. by repeat split.
  - reflexivity.
Defined.

(** ** Which exceptions can be raised *)

Lemma chunk_body_raises (data : list Z) (i : nat) (st : chunks) (e : exn) :
  chunk_body data i st = Raise e → chunk_error e.
Proof.
  unfold chunk_body, chunk_error. case_decide; [intros [= <-]; auto|].
  destruct (unpack_u32 _) as [n|e'] eqn:E; cbn [bind].
  - case_decide; [intros [= <-]; auto|].
    repeat case_decide; try done.
    unfold unpack_IHDR. repeat case_match; cbn [bind]; try done;
      intros [= <-]; auto.
  - unfold unpack_u32 in E. repeat case_match; try done;
      injection E as <-; intros [= <-]; auto.
Qed.

Lemma chunk_loop_raises (data : list Z) (e : exn) :
  ∀ fuel i st, chunk_loop fuel data i st = Raise e → chunk_error e.
Proof.
  induction fuel as [|fuel IH]; intros i st; simpl; [done|].
  case_decide; [|done].
  destruct (chunk_body data i st) as [[i' st'|st']|e'] eqn:E; cbn [bind].
  - apply IH.
  - done.
  - intros [= <-]. by eapply chunk_body_raises.
Qed.

Lemma starts_with_signature (data : list Z) :
  take (length PNG_SIGNATURE) data = PNG_SIGNATURE ↔
  ∃ rest, data = PNG_SIGNATURE ++ rest.
Proof.
  split.
  - intros H. exists (drop (length PNG_SIGNATURE) data).
    by rewrite <- H at 1; rewrite take_drop.
  - intros [rest ->]. by rewrite take_app_length.
Qed.

Lemma decode_pixels_outcome (inflate : list Z → option (list Z))
    (st : chunks) (w h : nat) (ct : Z) (bpp : nat) :
  (0 < bpp)%nat →
  (∃ e, decode_pixels inflate st w h ct bpp = Raise e ∧ interpret_error e) ∨
  (∃ raw, length raw = (h * (1 + w * bpp))%nat ∧
          decode_pixels inflate st w h ct bpp
          = Ok (verdict ct (trns_chunk st) (Spec.raster bpp w h raw))).
Proof.
  intros Hbpp. unfold decode_pixels, interpret_error.
  destruct (inflate (idat st)) as [raw|] eqn:Hraw; [|left; eauto 10].
  case_decide as Hlen; [left; eauto 10|].
  rewrite reconstruct_cases by done.
  destruct (first_bad_filter _ _ _) as [ft|]; cbn [bind]; [left; eauto 10|].
  right. exists raw. split; [done|]. unfold verdict.
  case_decide; [done|]. by destruct (trns_chunk st).
Qed.

Lemma interpret_raises (inflate : list Z → option (list Z)) (st : chunks)
    (e : exn) :
  interpret inflate st = Raise e → interpret_error e.
Proof.
  unfold interpret.
  destruct (width st) as [w|], (height st) as [h|],
    (bit_depth st) as [bd|], (color_type st) as [ct|];
    try (intros [= <-]; unfold interpret_error; by auto).
  assert (∀ bpp, (0 < bpp)%nat →
            decode_pixels inflate st w h ct bpp = Raise e →
            interpret_error e) as Hpix.
  { intros bpp Hbpp He.
    destruct (decode_pixels_outcome inflate st w h ct bpp Hbpp)
      as [(e' & He' & Herr) | (raw & _ & Hok)]; congruence. }
  repeat case_decide; try done;
    try (intros [= <-]; unfold interpret_error; by eauto 10);
    apply Hpix; lia.
Qed.

(** X1.  [png_has_transparency] raises the "is not a PNG file" error
    exactly for the inputs that do not begin with the eight signature
    bytes, the empty input among them. *)
Theorem X1_not_png_iff_no_signature (inflate : list Z → option (list Z))
    (data : list Z) :
  png_has_transparency inflate data = Raise (ValueError NotPng) ↔
  ¬ ∃ rest, data = PNG_SIGNATURE ++ rest.
Proof.
  rewrite <- starts_with_signature. unfold png_has_transparency, read_chunks.
  case_decide as Hsig.
  - split; [|done]. intros Hraise. exfalso.
    destruct (chunk_loop _ data _ no_chunks) as [st|e] eqn:E; cbn [bind] in *.
    + apply interpret_raises in Hraise.
      unfold interpret_error in Hraise.
      decompose [or ex] Hraise; discriminate.
    + injection Hraise as ->. apply chunk_loop_raises in E.
      unfold chunk_error in E. decompose [or] E; discriminate.
  - by split.
Qed.

(** X2.  Whatever the input bytes and whatever [zlib.decompress] returns,
    [png_has_transparency] never fails on a subscript out of range or on a
    value that does not fit a byte: every exception it raises is one of
    its own [ValueError]s, the error of [struct.unpack], or the error of
    [zlib.decompress]. *)
Theorem X2_no_subscript_or_byte_errors (inflate : list Z → option (list Z))
    (data : list Z) (e : exn) :
  png_has_transparency inflate data = Raise e →
  (∃ v, e = ValueError v) ∨ e = StructError ∨ e = ZlibError.
Proof.
  unfold png_has_transparency, read_chunks.
  case_decide; [|intros [= <-]; eauto].
  destruct (chunk_loop _ data _ no_chunks) as [st|e'] eqn:E; cbn [bind].
  - intros He%interpret_raises. unfold interpret_error in He.
    decompose [or ex] He; subst; eauto.
  - intros [= <-]. apply chunk_loop_raises in E. unfold chunk_error in E.
    decompose [or] E; subst; eauto.
Qed.

Lemma X2_witness :
  (∃ v, ValueError (UnknownFilterType 5) = ValueError v) ∨
  ValueError (UnknownFilterType 5) = StructError ∨
  ValueError (UnknownFilterType 5) = ZlibError.
Proof.
  exact (X2_no_subscript_or_byte_errors inflate_stored
           (png_file 1 1 8 3 None [5; 1]) _ eq_refl).
Defined.

(** ** Edge cases and [main] *)

(** X12.  A colour type 6 image of width 0 or height 0 is never reported
    as transparent: its raster is empty, so there is no alpha byte below
    255. *)
Theorem X12_empty_image_not_transparent (inflate : list Z → option (list Z))
    (data : list Z) (st : chunks) (w h : nat) :
  read_chunks data = Ok st →
  width st = Some w → height st = Some h → color_type st = Some 6 →
  (w = 0 ∨ h = 0)%nat →
  png_has_transparency inflate data ≠ Ok true.
Proof.
  intros Hread Hw Hh Hct Hzero. rewrite (png_interpret _ _ _ Hread).
  unfold interpret. rewrite Hw, Hh, Hct.
  destruct (bit_depth st) as [bd|]; [|done].
  case_decide; [done|]. rewrite decide_True by done.
  destruct (decode_pixels_outcome inflate st w h 6 4)
    as [(e & -> & _) | (raw & Hlen & ->)]; [lia|done|].
  assert (Spec.raster 4 w h raw = []) as ->; [|done].
  apply length_zero_iff_nil. unfold Spec.raster.
  rewrite length_spec_rows by done. nia.
Qed.

Lemma X12_witness :
  png_has_transparency inflate_stored (png_file 0 1 8 6 None [0]) ≠ Ok true.
Proof.
  apply (X12_empty_image_not_transparent inflate_stored
           (png_file 0 1 8 6 None [0]) (png_file_chunks 0 1 8 6 None [0]) 0 1
           eq_refl eq_refl eq_refl eq_refl).
  by left.
Defined.


(** ** When decoding succeeds *)

(** X13.  For a colour type 6 or 3 header of bit depth 8,
    [png_has_transparency] returns a boolean exactly when
    [zlib.decompress] yields a stream of [height * (1 + row_length)] bytes
    whose rows all carry a filter type in 0..4; the boolean is then the
    verdict on the raster of that stream. *)
Theorem X13_success_characterised (inflate : list Z → option (list Z))
    (data : list Z) (st : chunks) (w h : nat) (ct : Z) (b : bool) :
  read_chunks data = Ok st →
  width st = Some w → height st = Some h →
  bit_depth st = Some 8 → color_type st = Some ct →
  ct = 6 ∨ ct = 3 →
  png_has_transparency inflate data = Ok b ↔
  ∃ raw,
    inflate (idat st) = Some raw ∧
    length raw = (h * (1 + w * bpp_of ct))%nat ∧
    (∀ y, (y < h)%nat →
          ∃ ft, raw !! (y * (1 + w * bpp_of ct))%nat = Some ft ∧
                0 ≤ ft ≤ 4) ∧
    b = verdict ct (trns_chunk st) (Spec.raster (bpp_of ct) w h raw).
Proof.
  intros Hread Hw Hh Hbd Hct Hpix. split.
  - destruct (inflate (idat st)) as [raw|] eqn:Hraw.
    2:{ rewrite (png_interpret _ _ _ Hread).
        rewrite (interpret_pixels inflate st w h 8 ct) by done.
        unfold decode_pixels. by rewrite Hraw. }
    destruct (decide (length raw = (h * (1 + w * bpp_of ct))%nat))
      as [Hlen|Hlen].
    2:{ rewrite (png_interpret _ _ _ Hread).
        rewrite (interpret_pixels inflate st w h 8 ct) by done.
        by rewrite (decode_pixels_size inflate st w h ct _ raw). }
    rewrite (png_pixels inflate data st w h ct raw) by done.
    rewrite reconstruct_cases by (done || apply bpp_of_pos).
    destruct (first_bad_filter _ _ _) eqn:E; cbn [bind]; [done|].
    intros [= <-]. exists raw. split_and!; try done.
    intros y Hy.
    destruct (lookup_lt_is_Some_2 raw (y * (1 + w * bpp_of ct))%nat)
      as [ft Hft]; [rewrite Hlen; nia|].
    exists ft. split; [done|].
    by eapply first_bad_filter_None.
  - intros (raw & Hraw & Hlen & Hft & ->).
    rewrite (png_pixels inflate data st w h ct raw) by done.
    rewrite reconstruct_cases by (done || apply bpp_of_pos).
    assert (first_bad_filter (w * bpp_of ct) h raw = None) as ->; [|done].
    apply first_bad_filter_None. intros y ft Hy Hl.
    destruct (Hft y Hy) as (ft' & Hl' & Hvalid). congruence.
Qed.

Lemma X13_witness :
  png_has_transparency inflate_stored (png_file 1 1 8 6 None [0; 1; 2; 3; 254])
  = Ok true.
Proof.
  apply (X13_success_characterised inflate_stored
           (png_file 1 1 8 6 None [0; 1; 2; 3; 254])
           (png_file_chunks 1 1 8 6 None [0; 1; 2; 3; 254]) 1 1 6 true
           eq_refl eq_refl eq_refl eq_refl eq_refl (or_introl eq_refl)).
  exists [0; 1; 2; 3; 254]. split_and!; try reflexivity.
  intros [|y] Hy; [|lia]. exists 0. split; [reflexivity|lia].
Defined.

(** X14.  A colour type 6 image decoded from a stream of bytes is reported
    as not transparent exactly when the alpha byte of every one of its
    [width * height] pixels is 255. *)
Theorem X14_opaque_iff_all_alpha_255 (inflate : list Z → option (list Z))
    (data : list Z) (st : chunks) (w h : nat) (raw out : list Z) :
  read_chunks data = Ok st →
  width st = Some w → height st = Some h →
  bit_depth st = Some 8 → color_type st = Some 6 →
  inflate (idat st) = Some raw →
  length raw = (h * (1 + w * 4))%nat →
  Forall is_byte raw →
  reconstruct 4 w h raw = Ok out →
  png_has_transparency inflate data = Ok false ↔
  ∀ k, (k < w * h)%nat → out !! (4 * k + 3)%nat = Some 255.
Proof.
  intros Hread Hw Hh Hbd Hct Hraw Hlen Hbytes Hout.
  rewrite (png_pixels inflate data st w h 6 raw) by (done || by left).
  change (bpp_of 6) with 4%nat. rewrite Hout. cbn [bind].
  unfold verdict. rewrite decide_True by done.
  assert (Forall is_byte out) as Hbyte.
  { rewrite (reconstruct_Ok 4 w h raw out) by (done || lia).
    by apply rows_bytes. }
  assert (length out = (h * (w * 4))%nat) as Hsize.
  { rewrite (reconstruct_Ok 4 w h raw out) by (done || lia).
    unfold Spec.raster. by rewrite length_spec_rows. }
  rewrite Forall_lookup in Hbyte.
  destruct (any_below_255 (slice_from_step out 3 4)) eqn:E.
  - split; [done|]. intros Hall. exfalso.
    apply alpha_below_255 in E as (k & a & Hk & Ha).
    rewrite Hall in Hk; [naive_solver lia|].
    apply lookup_lt_Some in Hk. nia.
  - split; [|done]. intros _ k Hk.
    destruct (lookup_lt_is_Some_2 out (4 * k + 3)%nat) as [a Ha]; [nia|].
    rewrite Ha. f_equal.
    destruct (decide (a < 255)) as [Hlt|Hge].
    + assert (any_below_255 (slice_from_step out 3 4) = true)
        by (apply alpha_below_255; eauto).
      congruence.
    + specialize (Hbyte _ _ Ha). unfold is_byte in Hbyte. lia.
Qed.

Lemma X14_witness :
  png_has_transparency inflate_stored (png_file 1 1 8 6 None [0; 1; 2; 3; 255])
  = Ok false.
Proof.
  apply (X14_opaque_iff_all_alpha_255 inflate_stored
           (png_file 1 1 8 6 None [0; 1; 2; 3; 255])
           (png_file_chunks 1 1 8 6 None [0; 1; 2; 3; 255])
           1 1 [0; 1; 2; 3; 255] [1; 2; 3; 255]
           eq_refl eq_refl eq_refl eq_refl eq_refl eq_refl eq_refl).
  - repeat constructor; unfold is_byte; lia.
  - reflexivity.
  - intros [|k] Hk; [reflexivity|lia].
Defined.

(** ** The header *)

Lemma absorb_all_app (a b : list chunk) :
  ∀ st,
    absorb_all st (a ++ b)
    = let* st' := absorb_all st a in absorb_all st' b.
Proof.
  induction a as [|c a IH]; intros st; simpl; [done|].
  destruct (absorb st c); cbn [bind]; [apply IH|done].
Qed.

Lemma unpack_IHDR_tail (d t t' : list Z) :
  length d = 10%nat → length t = 3%nat → length t' = 3%nat →
  unpack_IHDR (d ++ t) = unpack_IHDR (d ++ t').
Proof.
  intros Hd Ht Ht'.
  do 10 (destruct d as [|? d]; [done|]). destruct d; [|done].
  do 3 (destruct t as [|? t]; [done|]). destruct t; [|done].
  do 3 (destruct t' as [|? t']; [done|]). by destruct t'.
Qed.

(** X15.  Of the 13 header bytes only the first ten are used: the
    compression method, the filter method and the interlace method are
    ignored, so two files that differ in nothing else get the same
    result. *)
Theorem X15_header_methods_ignored (inflate : list Z → option (list Z))
    (before after : list chunk) (d t t' : list Z) (tail : list Z) :
  Forall complete (before ++ after) →
  Forall (λ c, chunk_type c ≠ IEND) (before ++ after) →
  ends_reading tail →
  length d = 10%nat → length t = 3%nat → length t' = 3%nat →
  png_has_transparency inflate
    (PNG_SIGNATURE
       ++ chunks_bytes (before ++ mk_chunk IHDR (d ++ t) :: after) ++ tail)
  = png_has_transparency inflate
      (PNG_SIGNATURE
         ++ chunks_bytes (before ++ mk_chunk IHDR (d ++ t') :: after) ++ tail).
Proof.
  intros Hcomplete Hty Htail Hd Ht Ht'.
  apply Forall_app in Hcomplete as [Hc1 Hc2].
  apply Forall_app in Hty as [Hty1 Hty2].
  assert (∀ u, length u = 3%nat → complete (mk_chunk IHDR (d ++ u))) as Hc.
  { intros u Hu. repeat split. simpl. rewrite length_app, Hd, Hu. done. }
  unfold png_has_transparency.
  rewrite !read_chunks_ends; try done;
    try (apply Forall_app; split; [done|]; apply Forall_cons; split;
         [auto || done|done]).
  rewrite !absorb_all_app. simpl.
  destruct (absorb_all no_chunks before) as [st|]; cbn [bind]; [|done].
  assert (absorb st (mk_chunk IHDR (d ++ t))
          = absorb st (mk_chunk IHDR (d ++ t'))) as ->; [|done].
  unfold absorb. cbn [chunk_type chunk_data mk_chunk].
  rewrite !decide_True by done.
  by rewrite (unpack_IHDR_tail d t t').
Qed.

Lemma X15_witness :
  png_has_transparency inflate_stored
    (PNG_SIGNATURE
       ++ chunks_bytes
            ([] ++ mk_chunk IHDR ([0; 0; 0; 1; 0; 0; 0; 1; 8; 6] ++ [0; 0; 0])
               :: [mk_chunk IDAT (stored [0; 1; 2; 3; 254])])
       ++ [])
  = png_has_transparency inflate_stored
      (PNG_SIGNATURE
         ++ chunks_bytes
              ([] ++ mk_chunk IHDR ([0; 0; 0; 1; 0; 0; 0; 1; 8; 6] ++ [0; 0; 1])
                 :: [mk_chunk IDAT (stored [0; 1; 2; 3; 254])])
         ++ []).
Proof.
  apply (X15_header_methods_ignored inflate_stored []
           [mk_chunk IDAT (stored [0; 1; 2; 3; 254])]
           [0; 0; 0; 1; 0; 0; 0; 1; 8; 6] [0; 0; 0] [0; 0; 1] []);
    try reflexivity.
  - by repeat constructor.
  - by repeat constructor.
  - by left.
Defined.

(** ** The palette verdict, on the file *)

Lemma unpack_IHDR_fields (d : list Z) (w h : nat) (bd ct : Z) :
  unpack_IHDR d = Ok (w, h, bd, ct) →
  d !! 8%nat = Some bd ∧ d !! 9%nat = Some ct.
Proof.
  unfold unpack_IHDR.
  do 13 (destruct d as [|? d]; [done|]). destruct d; [|done].
  by intros [= _ _ <- <-].
Qed.

Lemma interpret_palette (inflate : list Z → option (list Z)) (st : chunks)
    (b : bool) :
  color_type st = Some 3 →
  interpret inflate st = Ok b →
  b = match trns_chunk st with
      | None => false
      | Some t => any_below_255 t
      end.
Proof.
  intros Hct. unfold interpret. rewrite Hct.
  destruct (width st), (height st), (bit_depth st); try done.
  case_decide; [done|]. rewrite decide_False by done.
  rewrite decide_True by done. unfold decode_pixels.
  destruct (inflate (idat st)); [|done]. case_decide; [done|].
  destruct (reconstruct _ _ _ _); cbn [bind]; [|done].
  rewrite decide_False by done.
  destruct (trns_chunk st); by intros [= <-].
Qed.

(** The answer for a palette file that decodes, read off its chunks. *)
Lemma palette_file (inflate : list Z → option (list Z))
    (cs : list chunk) (tail : list Z) (hdr : chunk) (b : bool) :
  Forall complete cs →
  Forall (λ c, chunk_type c ≠ IEND) cs →
  ends_reading tail →
  last (filter (λ c, chunk_type c = IHDR) cs) = Some hdr →
  chunk_data hdr !! 9%nat = Some 3 →
  png_has_transparency inflate (PNG_SIGNATURE ++ chunks_bytes cs ++ tail)
  = Ok b →
  b = match last (filter (λ c, chunk_type c = tRNS) cs) with
      | None => false
      | Some t => any_below_255 (chunk_data t)
      end.
Proof.
  intros Hcomplete Hty Htail Hhdr Hct. unfold png_has_transparency.
  rewrite read_chunks_ends by done.
  destruct (absorb_all no_chunks cs) as [st|] eqn:Hst; cbn [bind]; [|done].
  pose proof (absorb_all_header cs no_chunks st Hst) as Hheader.
  rewrite Hhdr in Hheader.
  destruct Hheader as (w & h & bd & ct & Hunpack & _ & _ & _ & Hct').
  apply unpack_IHDR_fields in Hunpack as [_ Hct''].
  assert (ct = 3) as -> by congruence.
  intros Hb%interpret_palette; [|done].
  rewrite (absorb_all_trns cs no_chunks st Hst) in Hb.
  by destruct (last (filter (λ c, chunk_type c = tRNS) cs)).
Qed.

(** C3.  For a palette asset (the colour type byte of its header is 3)
    that decodes successfully, [png_has_transparency] returns false when
    the file has no [tRNS] chunk, and otherwise true exactly when some
    entry of the table in its [tRNS] chunk (the last one, if there are
    several) is below 255.  The palette indices in the [IDAT] data play
    no part: any other such asset with the same table gets the same
    answer. *)
Theorem C3_palette (inflate : list Z → option (list Z))
    (cs : list chunk) (tail : list Z) (hdr : chunk) :
  Forall complete cs →
  Forall (λ c, chunk_type c ≠ IEND) cs →
  ends_reading tail →
  last (filter (λ c, chunk_type c = IHDR) cs) = Some hdr →
  chunk_data hdr !! 9%nat = Some 3 →
  (∃ b, png_has_transparency inflate
          (PNG_SIGNATURE ++ chunks_bytes cs ++ tail) = Ok b) →
  png_has_transparency inflate (PNG_SIGNATURE ++ chunks_bytes cs ++ tail)
  = Ok (match last (filter (λ c, chunk_type c = tRNS) cs) with
        | None => false
        | Some t => any_below_255 (chunk_data t)
        end) ∧
  (filter (λ c, chunk_type c = tRNS) cs = [] →
   png_has_transparency inflate (PNG_SIGNATURE ++ chunks_bytes cs ++ tail)
   = Ok false) ∧
  (∀ t,
     last (filter (λ c, chunk_type c = tRNS) cs) = Some t →
     png_has_transparency inflate (PNG_SIGNATURE ++ chunks_bytes cs ++ tail)
     = Ok true ↔
     ∃ i a, chunk_data t !! i = Some a ∧ a < 255) ∧
  ∀ cs' tail' hdr' b',
    Forall complete cs' →
    Forall (λ c, chunk_type c ≠ IEND) cs' →
    ends_reading tail' →
    last (filter (λ c, chunk_type c = IHDR) cs') = Some hdr' →
    chunk_data hdr' !! 9%nat = Some 3 →
    chunk_data <$> last (filter (λ c, chunk_type c = tRNS) cs')
    = chunk_data <$> last (filter (λ c, chunk_type c = tRNS) cs) →
    png_has_transparency inflate (PNG_SIGNATURE ++ chunks_bytes cs' ++ tail')
    = Ok b' →
    png_has_transparency inflate (PNG_SIGNATURE ++ chunks_bytes cs ++ tail)
    = Ok b'.
Proof.
  intros Hcomplete Hty Htail Hhdr Hct [b Hb].
  pose proof (palette_file inflate cs tail hdr b
                Hcomplete Hty Htail Hhdr Hct Hb) as Hverdict.
  rewrite Hb, Hverdict. split_and!.
  - done.
  - by intros ->.
  - intros t ->. rewrite <- any_below_255_true.
    split; [by intros [= ->]|by intros ->].
  - intros cs' tail' hdr' b' Hcomplete' Hty' Htail' Hhdr' Hct' Htable Hb'.
    rewrite (palette_file inflate cs' tail' hdr' b'
               Hcomplete' Hty' Htail' Hhdr' Hct' Hb').
    revert Htable.
    destruct (last (filter (λ c, chunk_type c = tRNS) cs')),
      (last (filter (λ c, chunk_type c = tRNS) cs));
      simpl; congruence.
Qed.

Lemma C3_witness :
  png_has_transparency inflate_stored
    (PNG_SIGNATURE
       ++ chunks_bytes [mk_chunk IHDR (ihdr_data 1 1 8 3);
                        mk_chunk tRNS [255; 0]; mk_chunk IDAT (stored [0; 1])]
       ++ chunk_bytes (mk_chunk IEND []))
  = Ok true ∧
  png_has_transparency inflate_stored
    (PNG_SIGNATURE
       ++ chunks_bytes [mk_chunk IHDR (ihdr_data 1 1 8 3);
                        mk_chunk tRNS [255; 255];
                        mk_chunk IDAT (stored [0; 1])]
       ++ chunk_bytes (mk_chunk IEND []))
  = Ok false ∧
  png_has_transparency inflate_stored
    (PNG_SIGNATURE
       ++ chunks_bytes [mk_chunk IHDR (ihdr_data 1 1 8 3);
                        mk_chunk IDAT (stored [0; 1])]
       ++ chunk_bytes (mk_chunk IEND []))
  = Ok false.
Proof.
  assert (ends_reading (chunk_bytes (mk_chunk IEND []))) as Hend.
  { right. exists (mk_chunk IEND []), []. by rewrite app_nil_r. }
  split_and!.
  - refine (proj1 (C3_palette inflate_stored
                     [mk_chunk IHDR (ihdr_data 1 1 8 3);
                      mk_chunk tRNS [255; 0]; mk_chunk IDAT (stored [0; 1])]
                     _ (mk_chunk IHDR (ihdr_data 1 1 8 3))
                     _ _ Hend eq_refl eq_refl
                     (ex_intro _ true eq_refl))); by repeat constructor.
  - refine (proj1 (C3_palette inflate_stored
                     [mk_chunk IHDR (ihdr_data 1 1 8 3);
                      mk_chunk tRNS [255; 255];
                      mk_chunk IDAT (stored [0; 1])]
                     _ (mk_chunk IHDR (ihdr_data 1 1 8 3))
                     _ _ Hend eq_refl eq_refl
                     (ex_intro _ false eq_refl))); by repeat constructor.
  - refine (proj1 (proj2 (C3_palette inflate_stored
                            [mk_chunk IHDR (ihdr_data 1 1 8 3);
                             mk_chunk IDAT (stored [0; 1])]
                            _ (mk_chunk IHDR (ihdr_data 1 1 8 3))
                            _ _ Hend eq_refl eq_refl
                            (ex_intro _ false eq_refl))) eq_refl);
      by repeat constructor.
Defined.

(** ** Every input the chunk loop accepts is a file of chunks *)

Lemma pack_unpack_u32 (b0 b1 b2 b3 : Z) :
  is_byte b0 → is_byte b1 → is_byte b2 → is_byte b3 →
  let n := b0 * 2 ^ 24 + b1 * 2 ^ 16 + b2 * 2 ^ 8 + b3 in
  pack_u32 n = [b0; b1; b2; b3] ∧ 0 ≤ n < 2 ^ 32.
Proof.
  unfold is_byte, pack_u32. intros H0 H1 H2 H3. simpl.
  change (2 ^ 24) with 16777216. change (2 ^ 16) with 65536.
  change (2 ^ 8) with 256. change (2 ^ 32) with 4294967296.
  split; [|lia]. repeat f_equal; Z.div_mod_to_equations; lia.
Qed.

Lemma drop_slices {A : Type} (l : list A) (i m : nat) :
  drop i l
  = slice l i (i + 4) ++ slice l (i + 4) (i + 8)
      ++ slice l (i + 8) (i + 8 + m) ++ slice l (i + 8 + m) (i + 8 + m + 4)
      ++ drop (i + 8 + m + 4) l.
Proof.
  unfold slice.
  replace (i + 4 - i)%nat with 4%nat by lia.
  replace (i + 8 - (i + 4))%nat with 4%nat by lia.
  replace (i + 8 + m - (i + 8))%nat with m by lia.
  replace (i + 8 + m + 4 - (i + 8 + m))%nat with 4%nat by lia.
  rewrite <- (take_drop 4 (drop i l)) at 1. f_equal.
  rewrite drop_drop.
  rewrite <- (take_drop 4 (drop (i + 4) l)) at 1. f_equal.
  rewrite drop_drop. replace (i + 4 + 4)%nat with (i + 8)%nat by lia.
  rewrite <- (take_drop m (drop (i + 8) l)) at 1. f_equal.
  rewrite drop_drop.
  rewrite <- (take_drop 4 (drop (i + 8 + m) l)) at 1. f_equal.
  by rewrite drop_drop.
Qed.

Lemma chunk_body_reads_a_chunk (data : list Z) (i : nat) (st : chunks)
    (r : loop_exit) :
  Forall is_byte data →
  chunk_body data i st = Ok r →
  ∃ c,
    complete c ∧
    drop i data = chunk_bytes c ++ drop (i + length (chunk_bytes c)) data ∧
    match r with
    | Break _ => chunk_type c = IEND
    | Continue i' _ =>
        chunk_type c ≠ IEND ∧ i' = (i + length (chunk_bytes c))%nat
    end.
Proof.
  intros Hbytes. unfold chunk_body. case_decide as Hhead; [done|].
  destruct (unpack_u32 _) as [n|] eqn:Hn; cbn [bind]; [|done].
  case_decide as Hfit; [done|]. intros Hr.
  set (m := Z.to_nat n) in *.
  set (c := {| chunk_type := slice data (i + 4) (i + 8);
               chunk_data := slice data (i + 8) (i + 8 + m);
               chunk_crc := slice data (i + 8 + m) (i + 8 + m + 4) |}).
  assert (∀ a b, (a ≤ b)%nat → (b ≤ length data)%nat →
                 length (slice data a b) = (b - a)%nat) as Hslice.
  { intros a b Hab Hb. unfold slice. rewrite length_take, length_drop. lia. }
  assert (pack_u32 (Z.of_nat m) = slice data i (i + 4) ∧ 0 ≤ n < 2 ^ 32)
    as [Hpack Hrange].
  { unfold unpack_u32 in Hn.
    destruct (slice data i (i + 4)) as [|b0 [|b1 [|b2 [|b3 [|]]]]] eqn:E;
      try done.
    assert (Forall is_byte [b0; b1; b2; b3]) as Hb.
    { rewrite <- E. unfold slice. by apply Forall_take, Forall_drop. }
    apply Forall_cons in Hb as [H0 Hb]. apply Forall_cons in Hb as [H1 Hb].
    apply Forall_cons in Hb as [H2 Hb]. apply Forall_cons in Hb as [H3 _].
    injection Hn as <-.
    destruct (pack_unpack_u32 b0 b1 b2 b3 H0 H1 H2 H3) as [Hp Hr'].
    split; [|exact Hr']. subst m. rewrite Z2Nat.id by lia. exact Hp. }
  assert (length (chunk_data c) = m) as Hdata
    by (simpl; rewrite Hslice by lia; lia).
  assert (complete c) as Hc.
  { split_and!.
    - simpl. rewrite Hslice by lia. lia.
    - simpl. rewrite Hslice by lia. lia.
    - rewrite Hdata. subst m. rewrite Z2Nat.id by lia. lia. }
  assert (length (chunk_bytes c) = (8 + m + 4)%nat) as Hlen
    by (rewrite length_chunk_bytes by done; by rewrite Hdata).
  exists c. split; [done|]. split.
  - rewrite Hlen. unfold chunk_bytes. rewrite Hdata, Hpack.
    rewrite <- !app_assoc.
    replace (i + (8 + m + 4))%nat with (i + 8 + m + 4)%nat by lia.
    apply drop_slices.
  - revert Hr. cbn [chunk_type c].
    repeat case_decide;
      try (destruct (unpack_IHDR _); cbn [bind]; [|done]);
      intros [= <-]; try done;
      (split; [intros Heq; by rewrite Heq in *|lia]).
Qed.

Lemma chunk_loop_reads_chunks (data : list Z) :
  Forall is_byte data →
  ∀ fuel i st st',
    (length data - i ≤ fuel)%nat →
    chunk_loop fuel data i st = Ok st' →
    ∃ cs tail,
      drop i data = chunks_bytes cs ++ tail ∧
      Forall complete cs ∧ Forall (λ c, chunk_type c ≠ IEND) cs ∧
      ends_reading tail.
Proof.
  intros Hbytes. induction fuel as [|fuel IH]; intros i st st' Hfuel; simpl.
  - intros _. exists [], []. rewrite drop_ge by lia. by repeat split; left.
  - case_decide as Hi.
    2:{ intros _. exists [], []. rewrite drop_ge by lia.
        by repeat split; left. }
    destruct (chunk_body data i st) as [r|] eqn:E; cbn [bind]; [|done].
    destruct (chunk_body_reads_a_chunk data i st r Hbytes E)
      as (c & Hc & Hdrop & Hr).
    pose proof (length_chunk_bytes c Hc) as Hlen.
    destruct r as [i' st1|st1].
    + destruct Hr as [Hty ->]. intros Hloop.
      apply IH in Hloop as (cs & tail & Hrest & Hcs & Htys & Htail); [|lia].
      exists (c :: cs), tail. rewrite chunks_bytes_cons, <- app_assoc.
      rewrite <- Hrest. split_and!; try done; by constructor.
    + intros _. exists [], (chunk_bytes c ++ drop (i + length (chunk_bytes c)) data).
      split_and!; try done. right. eauto.
Qed.

(** X16.  Every input of bytes on which the chunk loop finishes without an
    exception is the signature followed by complete chunks, none of them
    [IEND], and then either nothing or an [IEND] chunk and arbitrary
    bytes: the loop accepts no other layout. *)
Theorem X16_accepted_inputs_are_chunk_files (data : list Z) (st : chunks) :
  Forall is_byte data →
  read_chunks data = Ok st →
  ∃ cs tail,
    data = PNG_SIGNATURE ++ chunks_bytes cs ++ tail ∧
    Forall complete cs ∧ Forall (λ c, chunk_type c ≠ IEND) cs ∧
    ends_reading tail ∧
    absorb_all no_chunks cs = Ok st.
Proof.
  intros Hbytes. unfold read_chunks. case_decide as Hsig; [|done].
  intros Hloop.
  destruct (chunk_loop_reads_chunks data Hbytes _ _ _ _ (Nat.le_refl _) Hloop)
    as (cs & tail & Hdrop & Hcs & Htys & Htail).
  exists cs, tail.
  assert (data = PNG_SIGNATURE ++ chunks_bytes cs ++ tail) as Hdata.
  { rewrite <- Hdrop, <- Hsig at 1. by rewrite take_drop. }
  split_and!; try done.
  rewrite <- (read_chunks_ends cs tail Hcs Htys Htail), <- Hdata.
  unfold read_chunks. by rewrite decide_True.
Qed.

Lemma X16_witness :
  ∃ cs tail,
    png_file 1 1 8 6 None [0; 1; 2; 3; 254]
    = PNG_SIGNATURE ++ chunks_bytes cs ++ tail ∧
    Forall complete cs ∧ Forall (λ c, chunk_type c ≠ IEND) cs ∧
    ends_reading tail ∧
    absorb_all no_chunks cs
    = Ok (png_file_chunks 1 1 8 6 None [0; 1; 2; 3; 254]).
Proof.
  apply (X16_accepted_inputs_are_chunk_files
           (png_file 1 1 8 6 None [0; 1; 2; 3; 254])
           (png_file_chunks 1 1 8 6 None [0; 1; 2; 3; 254])).
  - apply Forall_forall. intros z Hz. apply list_elem_of_In in Hz.
    vm_compute in Hz. unfold is_byte.
    repeat (destruct Hz as [<- | Hz]; [lia|]). done.
  - reflexivity.
Defined.
